(** * A postfix ("polka") mini-language: statements, compiler, optimizer, evaluator

    Shallow embedding of the C++ sources of the repository:
    - [Part002]  : src/unnamed/part_002 (classes, [optimize], regex [compile]);
    - [Polka]    : the second program of src/polka.cpp (lines 236-566), whose
                   classes are those of part_002 and which has its own
                   [optimize] and a [compile] that does not optimize;
    - [Part003]  : src/unnamed/part_003 (hand-written scanner, guarded BinaryOP);
    - [Part004]  : src/unnamed/part_004 (unsigned arity, no [BlankStr]).
    - [Polka3]   : the third program of src/polka.cpp (guarded BinaryOP);
    - [Part000]  : src/unnamed/part_000 (the search tree and its iterator).

    Conventions.
    - [int] values are integers of [Z]; arithmetic is the one of the
      two's-complement host on which the repository's assertions run: [+],
      [-], [*], unary minus and [std::abs] wrap modulo 2^32 (polka.cpp:554
      asserts 2147483647 + 1 == -2147483648); [/] and [%] truncate toward
      zero and have no result when the divisor is 0 or the quotient is not
      representable.
    - [std::vector<int>] is a [list Z] in vector order: [back] is the last
      element, [push_back] appends.
    - [std::shared_ptr<Statement>] is [option Statement], [None] being the
      null pointer.
    - [std::cin] is the list of [int]s still to be extracted, together
      with the indeterminate values an extraction at the end of input
      leaves in its target. *)

From Stdlib Require Import ZArith List String Ascii Bool Lia.
Import ListNotations.
Local Open Scope string_scope.
Local Open Scope list_scope.
Local Open Scope Z_scope.

(** ** Machine integers *)

Definition INT_MIN : Z := - 2 ^ 31.
Definition INT_MAX : Z := 2 ^ 31 - 1.

(** conversion to [int] (two's complement, modulo 2^32) *)
Definition to_int (z : Z) : Z := (z + 2 ^ 31) mod 2 ^ 32 - 2 ^ 31.

(** conversion to [unsigned] *)
Definition to_unsigned (z : Z) : Z := z mod 2 ^ 32.

Definition is_int (z : Z) : Prop := INT_MIN <= z <= INT_MAX.

(** ** Outcomes of running code that can leave defined behaviour *)

Inductive outcome (A : Type) : Type :=
| Ok (a : A)
| UB_empty        (* back() or pop_back() on an empty vector *)
| UB_arith.       (* division by zero, or a quotient that is not an int *)
Arguments Ok {A} & a.
Arguments UB_empty {A}.
Arguments UB_arith {A}.

Definition bind {A B : Type} (m : outcome A) (k : A -> outcome B) : outcome B :=
  match m with
  | Ok a => k a
  | UB_empty => UB_empty
  | UB_arith => UB_arith
  end.

Definition outcome_map {A B : Type} (f : A -> B) (m : outcome A) : outcome B :=
  bind m (fun a => Ok (f a)).

Notation "x <- m ;; k" := (bind m (fun x => k))
  (at level 61, m at next level, right associativity).
Notation "' p <- m ;; k" := (bind m (fun x => let p := x in k))
  (at level 61, p pattern, m at next level, right associativity).

(** ** std::vector<int> and std::cin *)

Definition vector : Type := list Z.
(** [std::cin] as the programs see it: the [int]s still to be extracted
    and, for the time when nothing is left, what each further
    [int value; std::cin >> value;] finds in its uninitialized [value] *)
Record istream : Type := Istream {
  to_extract : list Z;
  uninitialized : nat -> Z
}.

(** the stream that holds the [int]s of [l]; a list written where a stream
    is expected stands for it *)
Definition stdin (l : list Z) : istream :=
  {| to_extract := l; uninitialized := fun _ => 0 |}.
#[warnings="-uniform-inheritance"]
Coercion stdin : list >-> istream.

(** a pair is elaborated against the type expected of it, so that a list
    can stand for a stream inside one *)
Arguments pair {A B} & a b.

Definition back (v : vector) : outcome Z :=
  match v with
  | [] => UB_empty
  | _ :: _ => Ok (last v 0)
  end.

Definition pop_back (v : vector) : outcome vector :=
  match v with
  | [] => UB_empty
  | _ :: _ => Ok (removelast v)
  end.

Definition push_back (v : vector) (x : Z) : vector := v ++ [x].

Definition size (v : vector) : Z := Z.of_nat (List.length v).

(** [int value; std::cin >> value;]: the next [int] of the stream; at the
    end of input nothing is stored, [value] keeps its indeterminate content
    and that is what the caller pushes *)
Definition cin_read (cin : istream) : Z * istream :=
  match to_extract cin with
  | [] => (uninitialized cin O,
           {| to_extract := []; uninitialized := fun n => uninitialized cin (S n) |})
  | x :: rest => (x, {| to_extract := rest; uninitialized := uninitialized cin |})
  end.

(** ** The function objects BinaryOP is instantiated with *)

Inductive binop : Type := plus | minus | divides | multiplies | modulus.

(** the exact (unbounded) value of the operation *)
Definition exact (f : binop) (a b : Z) : Z :=
  match f with
  | plus => a + b
  | minus => a - b
  | multiplies => a * b
  | divides => Z.quot a b
  | modulus => Z.rem a b
  end.

(** [func(a, b)] on [int] *)
Definition func (f : binop) (a b : Z) : outcome Z :=
  match f with
  | plus | minus | multiplies => Ok (to_int (exact f a b))
  | divides | modulus =>
      if b =? 0 then UB_arith
      else if (a =? INT_MIN) && (b =? -1) then UB_arith
      else Ok (exact f a b)
  end.

(** [std::abs(b)] *)
Definition std_abs (b : Z) : Z := to_int (Z.abs b).

(** ** Scanning helpers shared by the compilers *)

Definition isdigit (c : ascii) : bool :=
  let n := nat_of_ascii c in (48 <=? n)%nat && (n <=? 57)%nat.

(** white space of the regex class [\s] *)
Definition isspace (c : ascii) : bool :=
  let n := nat_of_ascii c in (n =? 32)%nat || ((9 <=? n)%nat && (n <=? 13)%nat).

Definition digit_value (c : ascii) : Z := Z.of_nat (nat_of_ascii c) - 48.

Definition is_empty (s : string) : bool :=
  match s with EmptyString => true | _ => false end.

(** [str.find_first_not_of(" ") == npos] *)
Fixpoint only_spaces (s : string) : bool :=
  match s with
  | EmptyString => true
  | String c s' => Ascii.eqb c " "%char && only_spaces s'
  end.

(** the matches of the regex [\S+], left to right; [cur] is the run being read *)
Fixpoint regex_tokens (cur : string) (s : string) : list string :=
  match s with
  | EmptyString => if is_empty cur then [] else [cur]
  | String c s' =>
      if isspace c
      then (if is_empty cur then regex_tokens EmptyString s' else cur :: regex_tokens EmptyString s')
      else regex_tokens (cur ++ String c EmptyString)%string s'
  end.

Fixpoint all_digits (s : string) : bool :=
  match s with
  | EmptyString => true
  | String c s' => isdigit c && all_digits s'
  end.

(** [std::regex_match(token, number_regex)] for [[-+]?\d+] *)
Definition number_regex (token : string) : bool :=
  match token with
  | EmptyString => false
  | String c rest =>
      if Ascii.eqb c "-"%char || Ascii.eqb c "+"%char
      then negb (is_empty rest) && all_digits rest
      else all_digits token
  end.

Fixpoint digits_value (acc : Z) (s : string) : Z :=
  match s with
  | EmptyString => acc
  | String c s' => digits_value (acc * 10 + digit_value c) s'
  end.

(** [std::stoi] on a token accepted by [number_regex]; [None] is
    [std::out_of_range]. *)
Definition stoi (token : string) : option Z :=
  let v := match token with
           | String "-"%char rest => - digits_value 0 rest
           | String "+"%char rest => digits_value 0 rest
           | _ => digits_value 0 token
           end in
  if (INT_MIN <=? v) && (v <=? INT_MAX) then Some v else None.

(** result of a function that may throw [std::out_of_range] *)
Inductive thrown (A : Type) : Type :=
| Return (a : A)
| Throw_out_of_range.
Arguments Return {A} a.
Arguments Throw_out_of_range {A}.

(** ** src/unnamed/part_002 *)

Module Part002.

(** The class hierarchy under [Statement]; the three protected fields
    [arguments], [results], [pure] are fixed by the constructors and read
    back by the getters below. *)
Inductive Statement : Type :=
| Combine (l r : Statement)
| ConstOp (v : Z)
| BinaryOP (f : binop)
| Abs
| Input
| Dup
| BlankStr.

Fixpoint get_arguments_count (st : Statement) : Z :=
  match st with
  | Combine l r =>
      (* calculateArgumentsCount *)
      to_unsigned
        (get_arguments_count l
         + Z.max (to_int (to_int (get_arguments_count r)
                          - to_int (get_results_count l))) 0)
  | ConstOp _ => 0
  | BinaryOP _ => 2
  | Abs => 1
  | Input => 0
  | Dup => 1
  | BlankStr => 0
  end
with get_results_count (st : Statement) : Z :=
  match st with
  | Combine l r =>
      (* calculateResultsCount *)
      to_unsigned
        (get_results_count r
         + Z.max (to_int (to_int (get_results_count l)
                          - to_int (get_arguments_count r))) 0)
  | ConstOp _ => 1
  | BinaryOP _ => 1
  | Abs => 1
  | Input => 1
  | Dup => 2
  | BlankStr => 0
  end.

Fixpoint is_pure (st : Statement) : bool :=
  match st with
  | Combine l r => is_pure l && is_pure r     (* calculateIsPure *)
  | Input => false
  | _ => true
  end.

(** [ConstOp::apply] *)
Definition ConstOp_apply (v : Z) (in_ : vector) : vector := push_back in_ v.

Fixpoint apply (st : Statement) (in_ : vector) (cin : istream)
  : outcome (vector * istream) :=
  match st with
  | Combine l r =>
      '(mid, cin1) <- apply l in_ cin ;;
      apply r mid cin1
  | ConstOp v => Ok (ConstOp_apply v in_, cin)
  | BinaryOP f =>
      b <- back in_ ;;
      in1 <- pop_back in_ ;;
      a <- back in1 ;;
      in2 <- pop_back in1 ;;
      c <- func f a b ;;
      Ok (push_back in2 c, cin)
  | Abs =>
      b <- back in_ ;;
      in1 <- pop_back in_ ;;
      Ok (push_back in1 (std_abs b), cin)
  | Input =>
      let (value, cin1) := cin_read cin in
      Ok (push_back in_ value, cin1)
  | Dup =>
      a <- back in_ ;;
      Ok (push_back in_ a, cin)
  | BlankStr => Ok (in_, cin)
  end.

(** [operator|] *)
Definition pipe (lhs rhs : Statement) : Statement := Combine lhs rhs.

Fixpoint optimize (stmt : Statement) : Statement :=
  match stmt with
  | Combine l r =>
      let left_optimized := optimize l in
      let right_optimized := optimize r in
      if get_arguments_count right_optimized >? get_results_count left_optimized
      then stmt
      else
        match left_optimized, right_optimized with
        | ConstOp lv, ConstOp rv =>
            let input := ConstOp_apply rv (ConstOp_apply lv []) in
            ConstOp (last input 0)
        | _, _ => Combine left_optimized right_optimized
        end
  | _ => stmt
  end.

(** [optimize] on a possibly null pointer: the dynamic cast of a null
    pointer fails and the pointer is returned. *)
Definition optimize_ptr (stmt : option Statement) : option Statement :=
  option_map optimize stmt.

Definition operator_mapping : list (string * Statement) :=
  [ ("+", BinaryOP plus); ("-", BinaryOP minus); ("/", BinaryOP divides);
    ("*", BinaryOP multiplies); ("%", BinaryOP modulus);
    ("abs", Abs); ("input", Input); ("dup", Dup) ].

Fixpoint find (token : string) (m : list (string * Statement)) : option Statement :=
  match m with
  | [] => None
  | (k, st) :: m' => if String.eqb k token then Some st else find token m'
  end.

(** [ret = !ret ? op : (ret | op)] *)
Definition extend (ret : option Statement) (op : Statement) : option Statement :=
  match ret with
  | None => Some op
  | Some acc => Some (pipe acc op)
  end.

(** the loop over the regex iterator, without the final [optimize] *)
Fixpoint compile_tokens (tokens : list string) (ret : option Statement)
  : thrown (option Statement) :=
  match tokens with
  | [] => Return ret
  | token :: rest =>
      if number_regex token then
        match stoi token with
        | None => Throw_out_of_range
        | Some v => compile_tokens rest (extend ret (ConstOp v))
        end
      else
        match find token operator_mapping with
        | Some op_stmt => compile_tokens rest (extend ret op_stmt)
        | None => compile_tokens rest ret
        end
  end.

Definition compile (str : string) : thrown (option Statement) :=
  if is_empty str || only_spaces str then Return (Some BlankStr)
  else
    match compile_tokens (regex_tokens EmptyString str) None with
    | Return ret => Return (optimize_ptr ret)
    | Throw_out_of_range => Throw_out_of_range
    end.

End Part002.

(** ** src/polka.cpp, second program: same classes, another optimizer *)

Module Polka.
Import Part002.

Fixpoint optimize (stmt : Statement) : Statement :=
  match stmt with
  | Combine l r =>
      let left_optimized := optimize l in
      let right_optimized := optimize r in
      match left_optimized, right_optimized with
      | ConstOp lv, ConstOp rv =>
          let combined_value :=
            to_int (nth 0 (ConstOp_apply lv []) 0 + nth 0 (ConstOp_apply rv []) 0) in
          ConstOp combined_value
      | _, _ => Combine left_optimized right_optimized
      end
  | _ => stmt
  end.

Definition compile (str : string) : thrown (option Statement) :=
  if is_empty str || only_spaces str then Return (Some BlankStr)
  else compile_tokens (regex_tokens EmptyString str) None.

End Polka.

(** ** Helpers of the hand-written scanners (part_003, part_004) *)

(** [str.remove_prefix(n)] *)
Fixpoint remove_prefix (n : nat) (str : string) : string :=
  match n, str with
  | S n', String _ str' => remove_prefix n' str'
  | _, _ => str
  end.

(** removal of the leading run of [' '] *)
Fixpoint consume_space (str : string) : string :=
  match str with
  | String c str' => if Ascii.eqb c " "%char then consume_space str' else str
  | EmptyString => str
  end.

(** the digit loop: [number] is multiplied by 10 and the digit added, [len]
    counts the digits read *)
Fixpoint scan_digits (number : Z) (len : nat) (str : string) : Z * nat :=
  match str with
  | String c str' =>
      if isdigit c
      then scan_digits (to_int (number * 10 + digit_value c)) (S len) str'
      else (number, len)
  | EmptyString => (number, len)
  end.

(** ** src/unnamed/part_003 *)

Module Part003.

Inductive Statement : Type :=
| Combine (l r : Statement)
| ConstOp (v : Z)
| BinaryOP (f : binop)
| Abs
| Input
| Dup
| BlankStr.

Fixpoint get_arguments_count (st : Statement) : Z :=
  match st with
  | Combine l r =>
      let l_args := to_int (get_arguments_count l) in
      let l_results := to_int (get_results_count l) in
      let r_args := to_int (get_arguments_count r) in
      to_unsigned (Z.max l_args (to_int (r_args - l_results)))
  | ConstOp _ => 0
  | BinaryOP _ => 2
  | Abs => 0
  | Input => 0
  | Dup => 1
  | BlankStr => 0
  end
with get_results_count (st : Statement) : Z :=
  match st with
  | Combine l r =>
      let l_results := to_int (get_results_count l) in
      let r_args := to_int (get_arguments_count r) in
      let r_results := to_int (get_results_count r) in
      to_unsigned (to_int (to_int (l_results + r_results) - Z.min l_results r_args))
  | ConstOp _ => 1
  | BinaryOP _ => 1
  | Abs => 1
  | Input => 1
  | Dup => 2
  | BlankStr => 0
  end.

Fixpoint is_pure (st : Statement) : bool :=
  match st with
  | Combine l r => is_pure l && is_pure r
  | _ => true
  end.

Fixpoint apply (st : Statement) (v : vector) (cin : istream)
  : outcome (vector * istream) :=
  match st with
  | Combine l r =>
      (* both pointers are non-null: the constructor dereferences them *)
      '(v1, cin1) <- apply l v cin ;;
      apply r v1 cin1
  | ConstOp c => Ok (push_back v c, cin)
  | BinaryOP f =>
      if size v <? 2 then Ok (v, cin)
      else
        b <- back v ;;
        v1 <- pop_back v ;;
        a <- back v1 ;;
        v2 <- pop_back v1 ;;
        c <- func f a b ;;
        Ok (push_back v2 c, cin)
  | Abs =>
      b <- back v ;;
      in1 <- pop_back v ;;
      Ok (push_back in1 (std_abs b), cin)
  | Input =>
      let (value, cin1) := cin_read cin in
      Ok (push_back v value, cin1)
  | Dup =>
      a <- back v ;;
      Ok (push_back v a, cin)
  | BlankStr => Ok (v, cin)
  end.

Definition pipe (lhs rhs : Statement) : Statement := Combine lhs rhs.

Definition extend (ret : option Statement) (op : Statement) : option Statement :=
  match ret with
  | None => Some op
  | Some acc => Some (pipe acc op)
  end.

Definition operator_mappings : list (string * Statement) :=
  [ ("+", BinaryOP plus); ("-", BinaryOP minus); ("/", BinaryOP divides);
    ("*", BinaryOP multiplies); ("%", BinaryOP modulus);
    ("abs", Abs); ("input", Input); ("dup", Dup) ].

(** the first mapping whose token [str] starts with *)
Fixpoint first_prefix (str : string) (m : list (string * Statement))
  : option (string * Statement) :=
  match m with
  | [] => None
  | (token, st) :: m' =>
      if String.prefix token str then Some (token, st) else first_prefix str m'
  end.

(** the lambda [parse_num]: the optional number and the remaining [str] *)
Definition parse_num (str : string) : option Z * string :=
  let '(is_negative, str1) :=
    match str with
    | String "-"%char (String d _ as rest) =>
        if isdigit d then (true, rest) else (false, str)
    | _ => (false, str)
    end in
  let '(number, len) := scan_digits 0 0 str1 in
  if (0 <? len)%nat
  then (Some (if is_negative : bool then to_int (- number) else number),
        remove_prefix len str1)
  else (None, str1).

(** the [while (!str.empty())] loop; [None] when [fuel] iterations do not
    reach its exit *)
Fixpoint compile_loop (fuel : nat) (str : string) (ret : option Statement)
  : option (option Statement) :=
  match fuel with
  | O => None
  | S fuel' =>
      if is_empty str then Some ret
      else
        let str := consume_space str in
        if is_empty str then Some ret
        else
          match parse_num str with
          | (Some number, str1) => compile_loop fuel' str1 (extend ret (ConstOp number))
          | (None, str1) =>
              match first_prefix str1 operator_mappings with
              | Some (token, st) =>
                  compile_loop fuel'
                    (consume_space (remove_prefix (String.length token) str1))
                    (extend ret st)
              | None => compile_loop fuel' str1 ret
              end
          end
  end.

Definition compile_fuel (fuel : nat) (str : string) : option (option Statement) :=
  if is_empty str then Some (Some BlankStr)
  else compile_loop fuel str None.

(** an iteration that goes round the loop either shortens [str] or leaves
    the whole state as it was, so [S (length str)] iterations decide *)
Definition compile (str : string) : option (option Statement) :=
  compile_fuel (S (String.length str)) str.

End Part003.

(** ** src/unnamed/part_004 *)

Module Part004.

(** this file has no [BlankStr] class *)
Inductive Statement : Type :=
| Combine (l r : Statement)
| ConstOp (v : Z)
| BinaryOP (f : binop)
| Abs
| Input
| Dup.

Fixpoint get_arguments_count (st : Statement) : Z :=
  match st with
  | Combine l r =>
      let l_args := get_arguments_count l in
      let l_results := get_results_count l in
      let r_args := get_arguments_count r in
      Z.max l_args (to_unsigned (r_args - l_results))
  | ConstOp _ => 0
  | BinaryOP _ => 2
  | Abs => 0
  | Input => 0
  | Dup => 1
  end
with get_results_count (st : Statement) : Z :=
  match st with
  | Combine l r =>
      let l_results := get_results_count l in
      let r_args := get_arguments_count r in
      let r_results := get_results_count r in
      to_unsigned (to_unsigned (l_results + r_results) - Z.min l_results r_args)
  | ConstOp _ => 1
  | BinaryOP _ => 1
  | Abs => 1
  | Input => 1
  | Dup => 2
  end.

Fixpoint is_pure (st : Statement) : bool :=
  match st with
  | Combine l r => is_pure l && is_pure r
  | _ => true
  end.

Fixpoint apply (st : Statement) (v : vector) (cin : istream)
  : outcome (vector * istream) :=
  match st with
  | Combine l r =>
      (* l->apply(r->apply(v)) *)
      '(v1, cin1) <- apply r v cin ;;
      apply l v1 cin1
  | ConstOp c => Ok (push_back v c, cin)
  | BinaryOP f =>
      b <- back v ;;
      v1 <- pop_back v ;;
      a <- back v1 ;;
      v2 <- pop_back v1 ;;
      c <- func f a b ;;
      Ok (push_back v2 c, cin)
  | Abs =>
      b <- back v ;;
      in1 <- pop_back v ;;
      Ok (push_back in1 (std_abs b), cin)
  | Input =>
      let (value, cin1) := cin_read cin in
      Ok (push_back v value, cin1)
  | Dup =>
      a <- back v ;;
      Ok (push_back v a, cin)
  end.

Definition pipe (lhs rhs : Statement) : Statement := Combine lhs rhs.

Definition extend (ret : option Statement) (op : Statement) : option Statement :=
  match ret with
  | None => Some op
  | Some acc => Some (pipe acc op)
  end.

Definition operator_mappings : list (string * Statement) :=
  [ ("+", BinaryOP plus); ("-", BinaryOP minus); ("/", BinaryOP divides);
    ("*", BinaryOP multiplies); ("%", BinaryOP modulus);
    ("abs", Abs); ("input", Input); ("dup", Dup) ].

(** the lambda [consume_token]: the remaining [str] when it returns true *)
Definition consume_token (p : string) (str : string) : option string :=
  if String.eqb str p then Some EmptyString
  else if String.prefix p str
          && match String.get (String.length p) str with
             | Some c => Ascii.eqb c " "%char
             | None => false
             end
       then Some (remove_prefix (String.length p + 1) str)
       else None.

(** the [for] loop over the mappings, up to its [break] *)
Fixpoint first_token (str : string) (m : list (string * Statement))
  : option (string * Statement) :=
  match m with
  | [] => None
  | (token, st) :: m' =>
      match consume_token token str with
      | Some str1 => Some (str1, st)
      | None => first_token str m'
      end
  end.

Fixpoint compile_loop (fuel : nat) (str : string) (ret : option Statement)
  : option (option Statement) :=
  match fuel with
  | O => None
  | S fuel' =>
      match str with
      | EmptyString => Some ret
      | String c _ =>
          if Ascii.eqb c " "%char then compile_loop fuel' (consume_space str) ret
          else
            match first_token str operator_mappings with
            | Some (str1, st) => compile_loop fuel' str1 (extend ret st)
            | None =>
                let '(number, len) := scan_digits 0 0 str in
                compile_loop fuel' (remove_prefix len str)
                  (extend ret (ConstOp number))
            end
      end
  end.

(** every iteration that is not the last either shortens [str] or leaves it
    as it is for ever, so [S (length str)] iterations decide *)
Definition compile (str : string) : option (option Statement) :=
  compile_loop (S (String.length str)) str None.

End Part004.

(** ** Vocabulary of the statements below *)

(** number of nodes of a part_002 statement tree *)
Fixpoint node_count (st : Part002.Statement) : Z :=
  match st with
  | Part002.Combine l r => 1 + node_count l + node_count r
  | _ => 1
  end.

Definition is_Combine (st : Part002.Statement) : bool :=
  match st with
  | Part002.Combine _ _ => true
  | _ => false
  end.

(** the cases in which [func f a b] has a value *)
Definition arith_defined (f : binop) (a b : Z) : Prop :=
  match f with
  | divides | modulus => b <> 0 /\ ~ (a = INT_MIN /\ b = -1)
  | _ => True
  end.

(** the stack part of an outcome *)
Definition stack_of (m : outcome (vector * istream)) : outcome vector :=
  outcome_map fst m.

(** [compile(str)->apply(stack)] as polka.cpp's [main] writes it, with an
    empty standard input (the sources it is used on hold no [input]);
    [None] when [compile] throws or returns null *)
Definition polka_run (str : string) (stack : vector) : option (outcome vector) :=
  match Polka.compile str with
  | Return (Some op) => Some (stack_of (Part002.apply op stack []))
  | _ => None
  end.

(** the same through part_002's [compile], which optimizes *)
Definition part002_run (str : string) (stack : vector) : option (outcome vector) :=
  match Part002.compile str with
  | Return (Some op) => Some (stack_of (Part002.apply op stack []))
  | _ => None
  end.

(** the same for part_003 *)
Definition part003_run (str : string) (stack : vector) : option (outcome vector) :=
  match Part003.compile str with
  | Some (Some op) => Some (stack_of (Part003.apply op stack []))
  | _ => None
  end.

(** a token that is a literal or one of the eight operators *)
Definition recognised (token : string) : bool :=
  number_regex token
  || match Part002.find token Part002.operator_mapping with
     | Some _ => true
     | None => false
     end.

(** a token that is a literal [std::stoi] rejects *)
Definition out_of_range_literal (token : string) : bool :=
  number_regex token
  && match stoi token with
     | Some _ => false
     | None => true
     end.

From Stdlib Require DecimalString DecimalPos DecimalZ.

(** [std::to_string(i)] for an [int], as the [main] functions use it to
    build sources: the decimal digits, after [-] for a negative number *)
Definition to_string (i : Z) : string :=
  DecimalString.NilZero.string_of_int (Z.to_int i).

(** [inc], the statement [main] gets from [compile("1 +")] *)
Definition inc : Part002.Statement :=
  Part002.Combine (Part002.ConstOp 1) (Part002.BinaryOP plus).

(** the loop of polka.cpp's [main]: starting from [compile("1")],
    [long_sequence_test = long_sequence_test | compile("1 +")] is run [n]
    times *)
Fixpoint long_sequence_test (n : nat) : Part002.Statement :=
  match n with
  | O => Part002.ConstOp 1
  | S n' => Part002.pipe (long_sequence_test n') inc
  end.

(** part_003 statements without [Abs] and [Dup] *)
Fixpoint no_Abs_Dup (st : Part003.Statement) : bool :=
  match st with
  | Part003.Combine l r => no_Abs_Dup l && no_Abs_Dup r
  | Part003.Abs | Part003.Dup => false
  | _ => true
  end.

(** ** src/unnamed/part_000: the search tree *)

Module Part000.

Section SearchingTree.

(** [SearchingTree<K, V>] with [K = int], as [main] instantiates it; the
    keys are only compared, so they are plain integers. *)
Variable V : Type.

(** [std::unique_ptr<Pair<K, V>>]: the null pointer or an owned node *)
Inductive Pair : Type :=
| null
| node (key : Z) (value : V) (left right : Pair).

(** [findNode], from the root [n] down *)
Fixpoint findNode (n : Pair) (key : Z) : Pair :=
  match n with
  | null => null
  | node k _ l r =>
      if key <? k then findNode l key
      else if key >? k then findNode r key
      else n
  end.

Definition find (root : Pair) (key : Z) : option (Z * V) :=
  match findNode root key with
  | node k v _ _ => Some (k, v)
  | null => None
  end.

(** [insert]: the walk down to the null pointer that receives the new node;
    an equal key returns at once *)
Fixpoint insert (root : Pair) (key : Z) (value : V) : Pair :=
  match root with
  | null => node key value null null
  | node k v l r =>
      if key <? k then node k v (insert l key value) r
      else if key >? k then node k v l (insert r key value)
      else root
  end.

(** [findMinNode] on the node with fields [key], [value], [left]: the key
    and value of the leftmost node *)
Fixpoint findMinNode (key : Z) (value : V) (left : Pair) : Z * V :=
  match left with
  | null => (key, value)
  | node k v l _ => findMinNode k v l
  end.

Fixpoint eraseNode (n : Pair) (key : Z) : Pair :=
  match n with
  | null => null
  | node k v l r =>
      if key <? k then node k v (eraseNode l key) r
      else if key >? k then node k v l (eraseNode r key)
      else
        match l, r with
        | null, _ => r
        | _, null => l
        | _, node rk rv rl _ =>
            let '(mk, mv) := findMinNode rk rv rl in
            node mk mv l (eraseNode r mk)
        end
  end.

Definition erase (root : Pair) (key : Z) : Pair := eraseNode root key.

(** [collectInRange], returning the vector it appends to *)
Fixpoint collectInRange (n : Pair) (a b : Z) (result : list (Z * V))
  : list (Z * V) :=
  match n with
  | null => result
  | node k v l r =>
      let result := if k >=? a then collectInRange l a b result else result in
      let result := if (k >=? a) && (k <? b) then result ++ [(k, v)] else result in
      if k <? b then collectInRange r a b result else result
  end.

Definition range (root : Pair) (a b : Z) : list (Z * V) :=
  if a <? b then collectInRange root a b []
  else rev (collectInRange root b a []).

(** [Iterator]: its [std::stack] of node pointers, top first *)
Definition Iterator : Type := list Pair.

Fixpoint pushLeft (n : Pair) (stack : Iterator) : Iterator :=
  match n with
  | null => stack
  | node _ _ l _ => pushLeft l (n :: stack)
  end.

Definition begin_ (root : Pair) : Iterator := pushLeft root [].
Definition end_ : Iterator := pushLeft null [].

(** [operator*]; [None] for [top()] of an empty stack *)
Definition deref (it : Iterator) : option (Z * V) :=
  match it with
  | node k v _ _ :: _ => Some (k, v)
  | _ => None
  end.

(** [operator++] *)
Definition incr (it : Iterator) : Iterator :=
  match it with
  | [] => it
  | current :: stack =>
      match current with
      | node _ _ _ (node _ _ _ _ as right) => pushLeft right stack
      | _ => stack
      end
  end.

(** [operator!=] against [end()]: the stacks differ *)
Definition not_at_end (it : Iterator) : bool :=
  match it with
  | [] => false
  | _ :: _ => true
  end.

(** the range-based [for] of [main]: the pairs seen by the loop body, in
    order; [None] when [fuel] steps do not reach [end()] *)
Fixpoint for_each (fuel : nat) (it : Iterator) : option (list (Z * V)) :=
  if not_at_end it then
    match fuel with
    | O => None
    | S fuel' =>
        match deref it, for_each fuel' (incr it) with
        | Some p, Some rest => Some (p :: rest)
        | _, _ => None
        end
    end
  else Some [].

(** the pairs of a tree from left to right *)
Fixpoint inorder (n : Pair) : list (Z * V) :=
  match n with
  | null => []
  | node k v l r => inorder l ++ (k, v) :: inorder r
  end.

Fixpoint count (n : Pair) : nat :=
  match n with
  | null => O
  | node _ _ l r => S (count l + count r)
  end.

(** the search-tree order: smaller keys to the left, larger to the right *)
Fixpoint ordered (n : Pair) : Prop :=
  match n with
  | null => True
  | node k _ l r =>
      ordered l /\ ordered r
      /\ Forall (fun p => fst p < k) (inorder l)
      /\ Forall (fun p => k < fst p) (inorder r)
  end.

End SearchingTree.

Arguments null {V}.
Arguments node {V} key value left right.
Arguments findNode {V} n key.
Arguments find {V} root key.
Arguments insert {V} root key value.
Arguments findMinNode {V} key value left.
Arguments eraseNode {V} n key.
Arguments erase {V} root key.
Arguments collectInRange {V} n a b result.
Arguments range {V} root a b.
Arguments pushLeft {V} n stack.
Arguments begin_ {V} root.
Arguments end_ {V}.
Arguments deref {V} it.
Arguments incr {V} it.
Arguments not_at_end {V} it.
Arguments for_each {V} fuel it.
Arguments inorder {V} n.
Arguments count {V} n.
Arguments ordered {V} n.

End Part000.

(** what an iterator of part_000 still has to visit: each node of its stack
    followed by that node's right subtree *)
Definition pending {V : Type} (it : Part000.Iterator V) : list (Z * V) :=
  flat_map (fun n => match n with
                     | Part000.node k v _ r => (k, v) :: Part000.inorder r
                     | Part000.null => []
                     end) it.

(** number of nodes an iterator still has to visit *)
Fixpoint pending_count {V : Type} (it : Part000.Iterator V) : nat :=
  match it with
  | [] => O
  | Part000.node _ _ _ r :: rest => S (Part000.count r + pending_count rest)
  | Part000.null :: rest => pending_count rest
  end.

Definition is_node {V : Type} (n : Part000.Pair V) : Prop :=
  match n with
  | Part000.node _ _ _ _ => True
  | Part000.null => False
  end.

(** the test of [collectInRange] on a key *)
Definition in_range {V : Type} (a b : Z) (p : Z * V) : bool :=
  (a <=? fst p) && (fst p <? b).

(** the tree part_000's [main] builds with its seven [insert] calls *)
Definition main_tree : Part000.Pair string :=
  let tree := Part000.null in
  let tree := Part000.insert tree 5 "root" in
  let tree := Part000.insert tree 3 "left" in
  let tree := Part000.insert tree 7 "right" in
  let tree := Part000.insert tree 2 "left-left" in
  let tree := Part000.insert tree 4 "left-right" in
  let tree := Part000.insert tree 6 "right-left" in
  let tree := Part000.insert tree 8 "right-right" in
  tree.

(** ** src/polka.cpp, third program (lines 567-732)

    Its classes declare the counts and purity of part_002's (the same
    [Combine] formulas, [Abs] with one argument, impure [Input]), so its
    statements are those of [Part002.Statement]; only [BinaryOP::apply]
    differs, by the guard [in.size() < 2]. *)

Module Polka3.
Import Part002.

Fixpoint apply (st : Statement) (in_ : vector) (cin : istream)
  : outcome (vector * istream) :=
  match st with
  | Combine l r =>
      '(mid, cin1) <- apply l in_ cin ;;
      apply r mid cin1
  | ConstOp v => Ok (push_back in_ v, cin)
  | BinaryOP f =>
      if size in_ <? 2 then Ok (in_, cin)
      else
        b <- back in_ ;;
        in1 <- pop_back in_ ;;
        a <- back in1 ;;
        in2 <- pop_back in1 ;;
        c <- func f a b ;;
        Ok (push_back in2 c, cin)
  | Abs =>
      b <- back in_ ;;
      in1 <- pop_back in_ ;;
      Ok (push_back in1 (std_abs b), cin)
  | Input =>
      let (value, cin1) := cin_read cin in
      Ok (push_back in_ value, cin1)
  | Dup =>
      a <- back in_ ;;
      Ok (push_back in_ a, cin)
  | BlankStr => Ok (in_, cin)
  end.

End Polka3.

(** a sequence of two literals somewhere in a part_002 tree *)
Fixpoint has_literal_pair (st : Part002.Statement) : bool :=
  match st with
  | Part002.Combine l r =>
      match l, r with
      | Part002.ConstOp _, Part002.ConstOp _ => true
      | _, _ => has_literal_pair l || has_literal_pair r
      end
  | _ => false
  end.

(** part_002 trees without division and remainder *)
Fixpoint no_division (st : Part002.Statement) : bool :=
  match st with
  | Part002.Combine l r => no_division l && no_division r
  | Part002.BinaryOP divides | Part002.BinaryOP modulus => false
  | _ => true
  end.

(** * Properties *)

(** ** The assertions of the [main] functions, replayed on the embedding *)

Example main_plus : polka_run "+" [2; 2] = Some (Ok [4]).
Proof. reflexivity. Qed.

Example main_minus : polka_run "-" [1; 2; 3] = Some (Ok [1; -1]).
Proof. reflexivity. Qed.

Example main_complicated_zero :
  polka_run " 1    4  3 4   5  6 + -      - 3    / % -    " [] = Some (Ok [0])
  /\ part002_run " 1    4  3 4   5  6 + -      - 3    / % -    " [] = Some (Ok [0])
  /\ part003_run " 1    4  3 4   5  6 + -      - 3    / % -    " [] = Some (Ok [0]).
Proof. repeat split. Qed.

Example main_test1 :
  polka_run "1 2 3 + -111 - * 10 %" [1; 2; 3] = Some (Ok [1; 2; 3; 6])
  /\ part002_run "1 2 3 + -111 - * 10 %" [1; 2; 3] = Some (Ok [1; 2; 3; 6])
  /\ part003_run "1 2 3 + -111 - * 10 %" [1; 2; 3] = Some (Ok [1; 2; 3; 6]).
Proof. repeat split. Qed.

Example main_signed_literals :
  polka_run "+417" [] = Some (Ok [417])
  /\ polka_run "-417" [] = Some (Ok [-417])
  /\ part003_run "+417" [] = Some (Ok [417])
  /\ part003_run "-417" [] = Some (Ok [-417]).
Proof. repeat split. Qed.

Example main_negative_modulus :
  polka_run "-10 3 %" [] = Some (Ok [-1])
  /\ polka_run "-10 -3 %" [] = Some (Ok [-1]).
Proof. split; reflexivity. Qed.

Example main_chain : polka_run "20 2 3 + 4 * dup 5 -" [] = Some (Ok [20; 20; 15]).
Proof. reflexivity. Qed.

Example main_inc_arity :
  match Polka.compile "1 +" with
  | Return (Some inc) =>
      Part002.is_pure inc = true
      /\ Part002.get_arguments_count inc = 1
      /\ Part002.get_results_count inc = 1
  | _ => False
  end.
Proof. repeat split. Qed.

(** ** Machine integers and vectors *)

Lemma to_int_small (z : Z) : is_int z -> to_int z = z.
Proof.
  unfold is_int, INT_MIN, INT_MAX, to_int. intros H.
  rewrite Z.mod_small; lia.
Qed.

Lemma to_int_is_int (z : Z) : is_int (to_int z).
Proof.
  unfold is_int, INT_MIN, INT_MAX, to_int.
  pose proof (Z.mod_pos_bound (z + 2 ^ 31) (2 ^ 32)). lia.
Qed.

Lemma to_unsigned_small (z : Z) : 0 <= z < 2 ^ 32 -> to_unsigned z = z.
Proof. intros H. unfold to_unsigned. now apply Z.mod_small. Qed.

Lemma func_not_UB_empty (f : binop) (a b : Z) : func f a b <> UB_empty.
Proof.
  destruct f; cbn [func]; try discriminate;
    destruct (b =? 0); try discriminate;
    destruct ((a =? INT_MIN) && (b =? -1)); discriminate.
Qed.

Lemma back_push_back (v : vector) (x : Z) : back (push_back v x) = Ok x.
Proof.
  unfold back, push_back.
  destruct (v ++ [x]) eqn:E.
  - now destruct v.
  - rewrite <- E. now rewrite last_last.
Qed.

Lemma pop_back_push_back (v : vector) (x : Z) : pop_back (push_back v x) = Ok v.
Proof.
  unfold pop_back, push_back.
  destruct (v ++ [x]) eqn:E.
  - now destruct v.
  - rewrite <- E. now rewrite removelast_last.
Qed.

Lemma vector_cases (v : vector) : v = [] \/ exists w x, v = push_back w x.
Proof.
  destruct v as [|y v]; [now left | right].
  destruct (exists_last (l := y :: v)) as (w & x & E); [discriminate|].
  now exists w, x.
Qed.

Lemma size_push_back (v : vector) (x : Z) : size (push_back v x) = size v + 1.
Proof. unfold size, push_back. rewrite length_app. simpl. lia. Qed.

Lemma size_nonneg (v : vector) : 0 <= size v.
Proof. unfold size. lia. Qed.

(** a vector of at least one element ends with its [back] *)
Lemma vector_size_1 (v : vector) : 1 <= size v -> exists w x, v = push_back w x.
Proof.
  intros H. destruct (vector_cases v) as [-> | E]; [|exact E].
  unfold size in H. simpl in H. lia.
Qed.

Lemma vector_size_2 (v : vector) :
  2 <= size v -> exists w a b, v = push_back (push_back w a) b.
Proof.
  intros H. destruct (vector_size_1 v) as (w1 & b & ->); [lia|].
  rewrite size_push_back in H.
  destruct (vector_size_1 w1) as (w & a & ->); [lia|].
  now exists w, a, b.
Qed.

Lemma firstn_push_back (v : vector) (x : Z) :
  firstn (List.length v) (push_back v x) = v.
Proof.
  unfold push_back. rewrite firstn_app, Nat.sub_diag, firstn_all. simpl.
  apply app_nil_r.
Qed.

Lemma firstn_push_back2 (v : vector) (x y : Z) :
  firstn (List.length v) (push_back (push_back v x) y) = v.
Proof.
  unfold push_back. rewrite <- app_assoc.
  rewrite firstn_app, Nat.sub_diag, firstn_all. simpl.
  apply app_nil_r.
Qed.

(** ** part_002: the primitives on a vector that is deep enough or not *)

Section Part002_primitives.
Import Part002.

Lemma apply_BinaryOP_push (f : binop) (w : vector) (a b : Z) (cin : istream) :
  apply (BinaryOP f) (push_back (push_back w a) b) cin
  = (c <- func f a b ;; Ok (push_back w c, cin)).
Proof.
  cbn [apply].
  rewrite back_push_back. cbn [bind].
  rewrite pop_back_push_back. cbn [bind].
  rewrite back_push_back. cbn [bind].
  rewrite pop_back_push_back. reflexivity.
Qed.

Lemma apply_BinaryOP_short (f : binop) (v : vector) (cin : istream) :
  size v < 2 -> apply (BinaryOP f) v cin = UB_empty.
Proof.
  intros H. destruct (vector_cases v) as [-> | (w & b & ->)]; [reflexivity|].
  rewrite size_push_back in H.
  destruct (vector_cases w) as [-> | (w' & a & ->)]; [reflexivity|].
  rewrite size_push_back in H. pose proof (size_nonneg w'). lia.
Qed.

Lemma apply_Abs_push (w : vector) (b : Z) (cin : istream) :
  apply Abs (push_back w b) cin = Ok (push_back w (std_abs b), cin).
Proof.
  cbn [apply]. rewrite back_push_back. cbn [bind].
  rewrite pop_back_push_back. reflexivity.
Qed.

Lemma apply_Dup_push (w : vector) (a : Z) (cin : istream) :
  apply Dup (push_back w a) cin = Ok (push_back (push_back w a) a, cin).
Proof. cbn [apply]. rewrite back_push_back. reflexivity. Qed.

Lemma node_count_pos (st : Statement) : 1 <= node_count st.
Proof. induction st; cbn [node_count]; lia. Qed.

(** on trees of fewer than 2^29 nodes the counts never wrap *)
Lemma counts_bounds (st : Statement) :
  node_count st < 2 ^ 29 ->
  0 <= get_arguments_count st <= 2 * node_count st
  /\ 0 <= get_results_count st <= 2 * node_count st.
Proof.
  induction st as [l IHl r IHr| | | | | |]; intros Hn;
    try (cbn [get_arguments_count get_results_count node_count]; lia).
  cbn [node_count] in Hn.
  pose proof (node_count_pos l). pose proof (node_count_pos r).
  destruct IHl as [Hla Hlr]; [lia|]. destruct IHr as [Hra Hrr]; [lia|].
  cbn [get_arguments_count get_results_count node_count].
  assert (I : forall z, 0 <= z <= 2 ^ 30 -> to_int z = z)
    by (intros z Hz; apply to_int_small; unfold is_int, INT_MIN, INT_MAX; lia).
  assert (J : forall z, - 2 ^ 30 <= z <= 2 ^ 30 -> to_int z = z)
    by (intros z Hz; apply to_int_small; unfold is_int, INT_MIN, INT_MAX; lia).
  rewrite !(I (get_arguments_count r)), !(I (get_results_count l)) by lia.
  rewrite !J by lia.
  rewrite !to_unsigned_small by lia.
  lia.
Qed.

Lemma Combine_counts (l r : Statement) :
  node_count (Combine l r) < 2 ^ 29 ->
  get_arguments_count (Combine l r)
  = get_arguments_count l
    + Z.max (get_arguments_count r - get_results_count l) 0
  /\ get_results_count (Combine l r)
     = get_results_count r
       + Z.max (get_results_count l - get_arguments_count r) 0.
Proof.
  intros Hn. cbn [node_count] in Hn.
  pose proof (node_count_pos l). pose proof (node_count_pos r).
  destruct (counts_bounds l) as [Hla Hlr]; [lia|].
  destruct (counts_bounds r) as [Hra Hrr]; [lia|].
  cbn [get_arguments_count get_results_count].
  assert (J : forall z, - 2 ^ 30 <= z <= 2 ^ 30 -> to_int z = z)
    by (intros z Hz; apply to_int_small; unfold is_int, INT_MIN, INT_MAX; lia).
  rewrite !(J (get_arguments_count r)), !(J (get_results_count l)) by lia.
  rewrite !J by lia.
  rewrite !to_unsigned_small by lia.
  split; reflexivity.
Qed.

(** [get_arguments_count] is the depth from which [apply] stops running
    off the vector, and [get_results_count] what it leaves in exchange *)
Lemma apply_depth (st : Statement) :
  node_count st < 2 ^ 29 ->
  forall (s : vector) (cin : istream),
    (get_arguments_count st <= size s ->
       apply st s cin <> UB_empty
       /\ forall s' cin', apply st s cin = Ok (s', cin') ->
            size s' = size s - get_arguments_count st + get_results_count st)
    /\ (size s < get_arguments_count st -> forall x, apply st s cin <> Ok x).
Proof.
  induction st as [l IHl r IHr| v | f | | | |]; intros Hn s cin.
  - destruct (Combine_counts l r Hn) as [Ea Er]. rewrite Ea, Er.
    cbn [node_count] in Hn.
    pose proof (node_count_pos l). pose proof (node_count_pos r).
    specialize (IHl ltac:(lia) s cin). destruct IHl as [IHl1 IHl2].
    cbn [apply].
    split.
    + intros Hs.
      destruct IHl1 as [Hl Hlen]; [lia|].
      destruct (apply l s cin) as [[mid cin1]| |] eqn:El; cbn [bind];
        [|congruence|].
      * specialize (Hlen mid cin1 eq_refl).
        specialize (IHr ltac:(lia) mid cin1). destruct IHr as [IHr1 _].
        destruct IHr1 as [Hr Hlen']; [lia|].
        split; [exact Hr|].
        intros s' cin' E. rewrite (Hlen' s' cin' E). lia.
      * split; [discriminate|]. intros ? ? E; discriminate.
    + intros Hs x.
      destruct (apply l s cin) as [[mid cin1]| |] eqn:El; cbn [bind];
        [|discriminate|discriminate].
      destruct (Z_lt_ge_dec (size s) (get_arguments_count l)) as [Hlt|Hge].
      * exfalso. exact (IHl2 Hlt _ eq_refl).
      * destruct IHl1 as [_ Hlen]; [lia|].
        specialize (Hlen mid cin1 eq_refl).
        specialize (IHr ltac:(lia) mid cin1). destruct IHr as [_ IHr2].
        apply IHr2. lia.
  - cbn [get_arguments_count get_results_count apply]. split.
    + intros _. split; [discriminate|]. intros s' cin' E. inversion E.
      unfold ConstOp_apply. rewrite size_push_back. lia.
    + pose proof (size_nonneg s). lia.
  - cbn [get_arguments_count get_results_count]. split.
    + intros Hs. destruct (vector_size_2 s Hs) as (w & a & b & ->).
      rewrite apply_BinaryOP_push.
      pose proof (func_not_UB_empty f a b) as Hf.
      destruct (func f a b); cbn [bind]; [|congruence|];
        (split; [discriminate|]); intros s' cin' E; inversion E.
      rewrite !size_push_back. lia.
    + intros Hs x. rewrite apply_BinaryOP_short by exact Hs. discriminate.
  - cbn [get_arguments_count get_results_count]. split.
    + intros Hs. destruct (vector_size_1 s Hs) as (w & b & ->).
      rewrite apply_Abs_push. split; [discriminate|].
      intros s' cin' E. inversion E. rewrite !size_push_back. lia.
    + intros Hs x. destruct (vector_cases s) as [-> | (w & b & ->)];
        [discriminate|].
      rewrite size_push_back in Hs. pose proof (size_nonneg w). lia.
  - cbn [get_arguments_count get_results_count apply]. split.
    + intros _. destruct (cin_read cin) as [value cin1].
      split; [discriminate|]. intros s' cin' E. inversion E.
      rewrite size_push_back. lia.
    + pose proof (size_nonneg s). lia.
  - cbn [get_arguments_count get_results_count]. split.
    + intros Hs. destruct (vector_size_1 s Hs) as (w & b & ->).
      rewrite apply_Dup_push. split; [discriminate|].
      intros s' cin' E. inversion E. rewrite !size_push_back. lia.
    + intros Hs x. destruct (vector_cases s) as [-> | (w & b & ->)];
        [discriminate|].
      rewrite size_push_back in Hs. pose proof (size_nonneg w). lia.
  - cbn [get_arguments_count get_results_count apply]. split.
    + intros _. split; [discriminate|]. intros s' cin' E. inversion E. lia.
    + pose proof (size_nonneg s). lia.
Qed.

End Part002_primitives.

(** ** The optimizers *)

(** C1 (fails on the code). The round trip [apply (optimize op) s = apply op s]
    breaks on the sequence of two literals [2 3]: evaluated on the empty stack
    it leaves [2; 3], but part_002's [optimize] folds it into the literal 3
    and polka.cpp's into the literal 5, so one pushed value is lost. The same
    happens through part_002's [compile], which ends with [optimize]. *)
Theorem optimize_folds_two_pushes_into_one :
  let op := Part002.Combine (Part002.ConstOp 2) (Part002.ConstOp 3) in
  forall cin : istream,
    Part002.apply op [] cin = Ok ([2; 3], cin)
    /\ Part002.optimize op = Part002.ConstOp 3
    /\ Part002.apply (Part002.optimize op) [] cin = Ok ([3], cin)
    /\ Polka.optimize op = Part002.ConstOp 5
    /\ Part002.apply (Polka.optimize op) [] cin = Ok ([5], cin)
    /\ Polka.compile "2 3" = Return (Some op)
    /\ Part002.compile "2 3" = Return (Some (Part002.ConstOp 3)).
Proof. intros op cin. repeat split. Qed.

(** every time part_002 folds, a push disappears: the folded pair leaves two
    values, its replacement one *)
Lemma Part002_fold_loses_a_value (lv rv : Z) (s : vector) (cin : istream) :
  Part002.apply (Part002.Combine (Part002.ConstOp lv) (Part002.ConstOp rv)) s cin
  = Ok (push_back (push_back s lv) rv, cin)
  /\ Part002.apply
       (Part002.optimize (Part002.Combine (Part002.ConstOp lv) (Part002.ConstOp rv)))
       s cin
     = Ok (push_back s rv, cin).
Proof. split; reflexivity. Qed.

(** ** The compilers *)

(** part_002 on the empty string and on strings of spaces *)
Lemma Part002_compile_blank (str : string) :
  only_spaces str = true ->
  Part002.compile str = Return (Some Part002.BlankStr).
Proof.
  intros H. unfold Part002.compile. rewrite H.
  now rewrite orb_true_r.
Qed.

Lemma Part002_BlankStr_identity (s : vector) (cin : istream) :
  Part002.get_arguments_count Part002.BlankStr = 0
  /\ Part002.get_results_count Part002.BlankStr = 0
  /\ Part002.is_pure Part002.BlankStr = true
  /\ Part002.apply Part002.BlankStr s cin = Ok (s, cin).
Proof. repeat split. Qed.

(** part_004 never leaves its loop on a string that starts with a character
    it cannot consume *)
Lemma Part004_compile_loop_foo (fuel : nat) (ret : option Part004.Statement) :
  Part004.compile_loop fuel "foo" ret = None.
Proof.
  revert ret. induction fuel as [|fuel IH]; intros ret; [reflexivity|].
  cbn. apply IH.
Qed.

(** C2 (fails on the code). [compile] does not always return an operation:
    in part_002 a string whose tokens are all unknown gives the null pointer
    (the loop never assigns [ret], and [optimize] passes the null pointer
    on), and a literal that does not fit an [int] makes [std::stoi] throw;
    in part_004 the empty string gives the null pointer, and on an unknown
    token the loop never ends. *)
Theorem compile_null_or_throws :
  Part002.compile "foo" = Return None
  /\ Part002.compile "99999999999" = Throw_out_of_range
  /\ Part004.compile EmptyString = Some None
  /\ (forall fuel : nat, Part004.compile_loop fuel "foo" None = None).
Proof.
  repeat split. intros fuel. apply Part004_compile_loop_foo.
Qed.

(** ** Sequences *)

Lemma Part002_Combine_apply (l r : Part002.Statement) (s : vector) (cin : istream) :
  Part002.apply (Part002.Combine l r) s cin
  = bind (Part002.apply l s cin) (fun p => Part002.apply r (fst p) (snd p)).
Proof.
  cbn [Part002.apply]. destruct (Part002.apply l s cin) as [[mid cin1]| |];
    reflexivity.
Qed.

Lemma Part003_Combine_apply (l r : Part003.Statement) (s : vector) (cin : istream) :
  Part003.apply (Part003.Combine l r) s cin
  = bind (Part003.apply l s cin) (fun p => Part003.apply r (fst p) (snd p)).
Proof.
  cbn [Part003.apply]. destruct (Part003.apply l s cin) as [[mid cin1]| |];
    reflexivity.
Qed.

(** C4 (fails on part_004). part_002 applies the left child first and the
    right child to its output, for all children and stacks; part_004's
    [Combine::apply] applies the right child first: on [1 +] and the stack
    [0], where left-then-right gives [1], it runs [+] on the one-element
    stack and reads [back()] of an empty vector. *)
Theorem Combine_apply_order :
  (forall (l r : Part002.Statement) (s : vector) (cin : istream),
      Part002.apply (Part002.Combine l r) s cin
      = bind (Part002.apply l s cin) (fun p => Part002.apply r (fst p) (snd p)))
  /\ (let l := Part004.ConstOp 1 in
      let r := Part004.BinaryOP plus in
      Part004.compile "1 +" = Some (Some (Part004.Combine l r))
      /\ bind (Part004.apply l [0] []) (fun p => Part004.apply r (fst p) (snd p))
         = Ok ([1], [])
      /\ Part004.apply (Part004.Combine l r) [0] [] = UB_empty
      /\ Part004.apply (Part004.Combine l r) [0] []
         = bind (Part004.apply r [0] []) (fun p => Part004.apply l (fst p) (snd p))).
Proof.
  split; [exact Part002_Combine_apply|].
  repeat split.
Qed.

(** ** The table of arities and purity *)

Lemma Part002_single_operator_table :
  Forall (fun e : string * (Z * Z * bool) =>
            match Part002.compile (fst e) with
            | Return (Some op) =>
                (Part002.get_arguments_count op, Part002.get_results_count op,
                 Part002.is_pure op) = snd e
            | _ => False
            end)
    [ ("+", (2, 1, true)); ("-", (2, 1, true)); ("*", (2, 1, true));
      ("/", (2, 1, true)); ("%", (2, 1, true)); ("abs", (1, 1, true));
      ("dup", (1, 2, true)); ("input", (0, 1, false)); ("7", (0, 1, true));
      (EmptyString, (0, 0, true)) ].
Proof. repeat constructor. Qed.

(** C5 (fails on part_003). In part_003 [compile "abs"] is the [Abs] node
    built with [Statement(0, 1, true)], so it declares 0 arguments, and
    [compile "input"] is the [Input] node built with [Statement(0, 1, true)],
    so it claims to be pure; part_002 declares 1 argument and impurity. *)
Theorem part003_abs_input_declarations :
  (Part003.compile "abs" = Some (Some Part003.Abs)
   /\ Part003.get_arguments_count Part003.Abs = 0
   /\ Part003.get_results_count Part003.Abs = 1
   /\ Part003.is_pure Part003.Abs = true)
  /\ (Part003.compile "input" = Some (Some Part003.Input)
      /\ Part003.get_arguments_count Part003.Input = 0
      /\ Part003.get_results_count Part003.Input = 1
      /\ Part003.is_pure Part003.Input = true)
  /\ (Part002.compile "abs" = Return (Some Part002.Abs)
      /\ Part002.get_arguments_count Part002.Abs = 1
      /\ Part002.compile "input" = Return (Some Part002.Input)
      /\ Part002.is_pure Part002.Input = false).
Proof. repeat split. Qed.

(** ** Underflow *)

Lemma Part003_BinaryOP_short (f : binop) (v : vector) (cin : istream) :
  size v < 2 -> Part003.apply (Part003.BinaryOP f) v cin = Ok (v, cin).
Proof.
  intros H. cbn [Part003.apply].
  destruct (size v <? 2) eqn:E; [reflexivity|].
  apply Z.ltb_ge in E. lia.
Qed.

(** C7 (fails on part_003). On the empty stack, which is below the declared
    arguments of both, [BinaryOP] returns the stack unchanged (its guard
    [v.size() < 2]) while [Dup] reads [back()] of the empty vector, as does
    [Abs]: neither an error nor the unchanged stack, and not one policy. *)
Theorem part003_underflow_is_mixed :
  forall cin : istream,
    size [] < Part003.get_arguments_count (Part003.BinaryOP plus)
    /\ Part003.apply (Part003.BinaryOP plus) [] cin = Ok ([], cin)
    /\ size [] < Part003.get_arguments_count Part003.Dup
    /\ Part003.apply Part003.Dup [] cin = UB_empty
    /\ Part003.apply Part003.Abs [] cin = UB_empty.
Proof. intros cin. repeat split. Qed.

(** ** Purity *)

(** part_002: a pure statement neither reads nor consumes [std::cin] *)
Lemma Part002_pure_apply_cin (op : Part002.Statement) :
  Part002.is_pure op = true ->
  forall (s : vector) (cin cin' : istream),
    Part002.apply op s cin
    = outcome_map (fun p => (fst p, cin)) (Part002.apply op s cin').
Proof.
  induction op as [l IHl r IHr| v | f | | | |]; intros Hp s cin cin';
    try discriminate Hp.
  - cbn [Part002.is_pure] in Hp. apply andb_true_iff in Hp as [Hl Hr].
    cbn [Part002.apply]. rewrite (IHl Hl s cin cin').
    destruct (Part002.apply l s cin') as [[mid c]| |]; cbn; [|reflexivity..].
    apply (IHr Hr).
  - reflexivity.
  - cbn [Part002.apply]. unfold outcome_map.
    destruct (back s); cbn [bind]; [|reflexivity..].
    destruct (pop_back s) as [in1| |]; cbn [bind]; [|reflexivity..].
    destruct (back in1); cbn [bind]; [|reflexivity..].
    destruct (pop_back in1); cbn [bind]; [|reflexivity..].
    destruct (func f a0 a); reflexivity.
  - cbn [Part002.apply]. unfold outcome_map.
    destruct (back s); cbn [bind]; [|reflexivity..].
    destruct (pop_back s); reflexivity.
  - cbn [Part002.apply]. unfold outcome_map.
    destruct (back s); reflexivity.
  - reflexivity.
Qed.

Lemma Part002_pure_deterministic (op : Part002.Statement) :
  Part002.is_pure op = true ->
  forall (s : vector) (cin cin' : istream),
    stack_of (Part002.apply op s cin) = stack_of (Part002.apply op s cin').
Proof.
  intros Hp s cin cin'. rewrite (Part002_pure_apply_cin op Hp s cin cin').
  unfold stack_of, outcome_map.
  destruct (Part002.apply op s cin') as [[v c]| |]; reflexivity.
Qed.

(** C8 (fails on part_003). part_003 builds [Input] with [pure = true], and
    [compile "input"] is that node: it reports [is_pure] and yet, applied
    twice to the same empty stack, pushes whatever [std::cin] holds. *)
Theorem part003_pure_Input_depends_on_cin :
  Part003.compile "input" = Some (Some Part003.Input)
  /\ Part003.is_pure Part003.Input = true
  /\ stack_of (Part003.apply Part003.Input [] [1]) = Ok [1]
  /\ stack_of (Part003.apply Part003.Input [] [2]) = Ok [2].
Proof. repeat split. Qed.

(** ** Declared arity of a sequence *)

(** part_003 computes the maximum literally (on trees small enough for the
    counts not to wrap) *)
Lemma Part003_Combine_arguments (l r : Part003.Statement) :
  0 <= Part003.get_arguments_count l <= 2 ^ 30 ->
  0 <= Part003.get_results_count l <= 2 ^ 30 ->
  0 <= Part003.get_arguments_count r <= 2 ^ 30 ->
  Part003.get_arguments_count (Part003.Combine l r)
  = Z.max (Part003.get_arguments_count l)
          (Part003.get_arguments_count r - Part003.get_results_count l).
Proof.
  intros Hla Hlr Hra. cbn [Part003.get_arguments_count].
  assert (J : forall z, - 2 ^ 30 <= z <= 2 ^ 30 -> to_int z = z)
    by (intros z Hz; apply to_int_small; unfold is_int, INT_MIN, INT_MAX; lia).
  rewrite !(J (Part003.get_arguments_count l)),
          !(J (Part003.get_arguments_count r)),
          !(J (Part003.get_results_count l)) by lia.
  rewrite J by lia. apply to_unsigned_small. lia.
Qed.

(** C3, as stated, fails: part_002 (and polka.cpp) declare 3 arguments for
    [+ +], not max(2, 2 - 1) = 2, and on a stack of depth 2 the sequence
    runs off the vector. *)
Lemma Combine_plus_plus_declares_3 :
  let l := Part002.BinaryOP plus in
  let r := Part002.BinaryOP plus in
  Part002.compile "+ +" = Return (Some (Part002.Combine l r))
  /\ Part002.get_arguments_count (Part002.Combine l r) = 3
  /\ Part002.get_arguments_count (Part002.Combine l r)
     <> Z.max (Part002.get_arguments_count l)
              (Part002.get_arguments_count r - Part002.get_results_count l)
  /\ Part002.apply (Part002.Combine l r) [1; 2] [] = UB_empty.
Proof. cbv zeta. repeat split. discriminate. Qed.

(** C3 (amended). In part_002 a sequence declares
    [l.arguments + max(r.arguments - l.results, 0)] arguments, and that is
    the least stack depth on which it can be applied: from that depth on
    [apply] never runs off the vector, below it [apply] never returns. *)
Theorem Combine_arguments_min_depth (l r : Part002.Statement) :
  node_count (Part002.Combine l r) < 2 ^ 29 ->
  Part002.get_arguments_count (Part002.Combine l r)
  = Part002.get_arguments_count l
    + Z.max (Part002.get_arguments_count r - Part002.get_results_count l) 0
  /\ forall (s : vector) (cin : istream),
       (Part002.get_arguments_count (Part002.Combine l r) <= size s ->
          Part002.apply (Part002.Combine l r) s cin <> UB_empty)
       /\ (size s < Part002.get_arguments_count (Part002.Combine l r) ->
             forall x, Part002.apply (Part002.Combine l r) s cin <> Ok x).
Proof.
  intros Hn. split; [apply (Combine_counts l r Hn)|].
  intros s cin.
  destruct (apply_depth (Part002.Combine l r) Hn s cin) as [Hge Hlt].
  split; [|exact Hlt].
  intros Hs. apply (Hge Hs).
Qed.

Lemma Combine_arguments_min_depth_witness :
  let l := Part002.BinaryOP plus in
  let r := Part002.BinaryOP plus in
  node_count (Part002.Combine l r) < 2 ^ 29
  /\ Part002.get_arguments_count (Part002.Combine l r) = 2 + Z.max (2 - 1) 0
  /\ forall (s : vector) (cin : istream),
       (Part002.get_arguments_count (Part002.Combine l r) <= size s ->
          Part002.apply (Part002.Combine l r) s cin <> UB_empty)
       /\ (size s < Part002.get_arguments_count (Part002.Combine l r) ->
             forall x, Part002.apply (Part002.Combine l r) s cin <> Ok x).
Proof.
  cbv zeta. split; [reflexivity|].
  apply (Combine_arguments_min_depth (Part002.BinaryOP plus) (Part002.BinaryOP plus)).
  reflexivity.
Defined.

(** the same sequence under the guarded [BinaryOP] of polka.cpp's third
    program, which declares 3 arguments as well, returns on a stack of
    depth 2: there the declared count is no minimum *)
Example Polka3_plus_plus_on_depth_2 :
  Polka3.apply (Part002.Combine (Part002.BinaryOP plus) (Part002.BinaryOP plus))
    [1; 2] [] = Ok ([3], []).
Proof. reflexivity. Qed.

(** ** The guard of part_002's optimizer *)

(** C6, as stated, fails: for [1 2 +] the optimized right child [+] needs 2
    arguments and the optimized left child, the literal 2, supplies 1; the
    result is the original node and not the sequence of the optimized
    children. *)
Lemma optimize_guard_not_optimized_children :
  let l := Part002.Combine (Part002.ConstOp 1) (Part002.ConstOp 2) in
  let r := Part002.BinaryOP plus in
  Part002.get_arguments_count (Part002.optimize r)
    > Part002.get_results_count (Part002.optimize l)
  /\ Part002.optimize (Part002.Combine l r)
     <> Part002.Combine (Part002.optimize l) (Part002.optimize r).
Proof. cbv zeta. split; [reflexivity | discriminate]. Qed.

(** C6 (amended). When the optimized right child requires more arguments
    than the optimized left child's results supply, [optimize] returns the
    node it was given, unchanged. *)
Theorem optimize_guard_returns_stmt (l r : Part002.Statement) :
  Part002.get_arguments_count (Part002.optimize r)
    > Part002.get_results_count (Part002.optimize l) ->
  Part002.optimize (Part002.Combine l r) = Part002.Combine l r.
Proof.
  intros H. cbn [Part002.optimize].
  rewrite Z.gtb_ltb.
  destruct (Part002.get_results_count (Part002.optimize l)
            <? Part002.get_arguments_count (Part002.optimize r)) eqn:E;
    [reflexivity|].
  apply Z.ltb_ge in E. lia.
Qed.

Lemma optimize_guard_returns_stmt_witness :
  let l := Part002.Combine (Part002.ConstOp 1) (Part002.ConstOp 2) in
  let r := Part002.BinaryOP plus in
  Part002.get_arguments_count (Part002.optimize r)
    > Part002.get_results_count (Part002.optimize l)
  /\ Part002.optimize (Part002.Combine l r) = Part002.Combine l r.
Proof.
  cbv zeta. split; [reflexivity|].
  apply optimize_guard_returns_stmt. reflexivity.
Defined.

(** ** Arithmetic of BinaryOP *)

Lemma quot_is_int (a b : Z) :
  is_int a -> is_int b -> b <> 0 -> ~ (a = INT_MIN /\ b = -1) ->
  is_int (Z.quot a b).
Proof.
  unfold is_int, INT_MIN, INT_MAX. intros Ha Hb Hb0 Hx.
  pose proof (Z.quot_rem' a b) as E.
  pose proof (Z.rem_bound_abs a b Hb0) as Hr.
  pose proof (Z.rem_sign_mul a b Hb0) as Hs.
  set (q := Z.quot a b) in *. set (r := Z.rem a b) in *.
  clearbody q r.
  destruct (Z.eq_dec (Z.abs b) 1) as [Hb1|Hb1].
  - assert (r = 0) by lia. subst r.
    destruct (Z.eq_dec b 1); [subst b; lia|].
    assert (b = -1) by lia. subst b. lia.
  - assert (2 * Z.abs q <= Z.abs a); [|lia].
    destruct (Z.eq_dec q 0) as [->|Hq0]; [lia|].
    assert (Hm : Z.abs (b * q) <= Z.abs a).
    { destruct (Z_lt_le_dec a 0), (Z_lt_le_dec r 0), (Z_lt_le_dec (b * q) 0);
        nia. }
    rewrite Z.abs_mul in Hm. nia.
Qed.

Lemma rem_is_int (a b : Z) : is_int b -> b <> 0 -> is_int (Z.rem a b).
Proof.
  unfold is_int, INT_MIN, INT_MAX. intros Hb Hb0.
  pose proof (Z.rem_bound_abs a b Hb0). lia.
Qed.

(** [func] returns the exact value reduced to [int] whenever it has one *)
Lemma func_wraps (f : binop) (a b : Z) :
  is_int a -> is_int b -> arith_defined f a b ->
  func f a b = Ok (to_int (exact f a b)).
Proof.
  intros Ha Hb Hd. destruct f; cbn [func arith_defined] in *; try reflexivity.
  - destruct Hd as [Hb0 Hx].
    destruct (b =? 0) eqn:E0; [apply Z.eqb_eq in E0; contradiction|].
    destruct ((a =? INT_MIN) && (b =? -1)) eqn:E1.
    + apply andb_true_iff in E1 as [E1 E2].
      apply Z.eqb_eq in E1, E2. exfalso. now apply Hx.
    + now rewrite to_int_small by (now apply quot_is_int).
  - destruct Hd as [Hb0 Hx].
    destruct (b =? 0) eqn:E0; [apply Z.eqb_eq in E0; contradiction|].
    destruct ((a =? INT_MIN) && (b =? -1)) eqn:E1.
    + apply andb_true_iff in E1 as [E1 E2].
      apply Z.eqb_eq in E1, E2. exfalso. now apply Hx.
    + now rewrite to_int_small by (now apply rem_is_int).
Qed.

(** C9, as stated, fails: not every [BinaryOP] result is reduced modulo
    2^32 rather than failing. For [-2147483648 -1 /] the exact quotient is
    2^31, whose reduction would be -2147483648, but the division of
    [INT_MIN] by [-1] has no value and the evaluation stops there. *)
Lemma BinaryOP_divides_INT_MIN_fails :
  is_int (-2147483648) /\ is_int (-1)
  /\ to_int (exact divides (-2147483648) (-1)) = -2147483648
  /\ (forall cin : istream,
        Part002.apply (Part002.BinaryOP divides) [-2147483648; -1] cin = UB_arith)
  /\ (exists op : Part002.Statement,
        Polka.compile "-2147483648 -1 /" = Return (Some op)
        /\ Part002.compile "-2147483648 -1 /" = Return (Some op)
        /\ forall cin : istream, Part002.apply op [] cin = UB_arith).
Proof.
  split; [unfold is_int, INT_MIN, INT_MAX; lia|].
  split; [unfold is_int, INT_MIN, INT_MAX; lia|].
  split; [reflexivity|]. split; [reflexivity|].
  eexists. repeat split.
Qed.

(** C9 (amended). [2147483647 1 +] evaluates to [-2147483648] on the empty
    stack, both as polka.cpp and as part_002 compile it; and every
    [BinaryOP] whose operation has a value ([+], [-], [*] always, [/] and
    [%] when the divisor is not 0 and the operands are not [INT_MIN] and
    [-1]) replaces the two top [int]s [a], [b] by the exact result reduced
    modulo 2^32 into the signed 32-bit range. *)
Theorem BinaryOP_wraps_around :
  (forall cin : istream,
      exists op : Part002.Statement,
        Polka.compile "2147483647 1 +" = Return (Some op)
        /\ Part002.compile "2147483647 1 +" = Return (Some op)
        /\ Part002.apply op [] cin = Ok ([-2147483648], cin))
  /\ (forall (f : binop) (a b : Z) (s : vector) (cin : istream),
         is_int a -> is_int b -> arith_defined f a b ->
         Part002.apply (Part002.BinaryOP f) (push_back (push_back s a) b) cin
         = Ok (push_back s (to_int (exact f a b)), cin)
         /\ is_int (to_int (exact f a b))
         /\ (to_int (exact f a b) - exact f a b) mod 2 ^ 32 = 0).
Proof.
  split.
  - intros cin. eexists. repeat split.
  - intros f a b s cin Ha Hb Hd.
    rewrite apply_BinaryOP_push, (func_wraps f a b Ha Hb Hd). cbn [bind].
    repeat split; try apply to_int_is_int.
    unfold to_int.
    pose proof (Z.div_mod (exact f a b + 2 ^ 31) (2 ^ 32) ltac:(lia)) as E.
    replace ((exact f a b + 2 ^ 31) mod 2 ^ 32 - 2 ^ 31 - exact f a b)
      with ((- ((exact f a b + 2 ^ 31) / 2 ^ 32)) * 2 ^ 32) by lia.
    apply Z.mod_mul. lia.
Qed.

Lemma BinaryOP_wraps_around_witness :
  is_int 2147483647 /\ is_int 1 /\ arith_defined plus 2147483647 1
  /\ Part002.apply (Part002.BinaryOP plus) (push_back (push_back [] 2147483647) 1) []
     = Ok (push_back [] (to_int (exact plus 2147483647 1)), []).
Proof.
  assert (Ha : is_int 2147483647) by (unfold is_int, INT_MIN, INT_MAX; lia).
  assert (Hb : is_int 1) by (unfold is_int, INT_MIN, INT_MAX; lia).
  assert (Hd : arith_defined plus 2147483647 1) by exact I.
  split; [exact Ha|]. split; [exact Hb|]. split; [exact Hd|].
  exact (proj1 (proj2 BinaryOP_wraps_around plus 2147483647 1 [] [] Ha Hb Hd)).
Defined.

(** ** Frame of the primitives *)

(** C10. A part_002 statement that is not a sequence, applied to a stack at
    least as deep as its declared arguments [k], never runs off the vector;
    when it returns, the elements below the top [k] are those of the input,
    in the same order; and it fails to return only in a [BinaryOP] whose
    division or remainder has no value. *)
Theorem primitive_frame (op : Part002.Statement) (s : vector) (cin : istream) :
  is_Combine op = false ->
  Part002.get_arguments_count op <= size s ->
  let below := (List.length s - Z.to_nat (Part002.get_arguments_count op))%nat in
  match Part002.apply op s cin with
  | Ok (s', _) => firstn below s' = firstn below s
  | UB_empty => False
  | UB_arith => exists f, op = Part002.BinaryOP f /\ (f = divides \/ f = modulus)
  end.
Proof.
  intros Hc Hs below. subst below.
  destruct op as [l r| v | f | | | |]; try discriminate Hc;
    cbn [Part002.get_arguments_count] in *.
  - cbn [Part002.apply]. unfold Part002.ConstOp_apply.
    change (Z.to_nat 0) with 0%nat. rewrite Nat.sub_0_r.
    rewrite firstn_push_back. now rewrite firstn_all.
  - destruct (vector_size_2 s Hs) as (w & a & b & ->).
    rewrite apply_BinaryOP_push.
    replace (List.length (push_back (push_back w a) b) - Z.to_nat 2)%nat
      with (List.length w)
      by (unfold push_back; rewrite !length_app; simpl; lia).
    pose proof (func_not_UB_empty f a b) as Hf.
    destruct (func f a b) as [c| |] eqn:E; cbn [bind]; [|congruence|].
    + now rewrite firstn_push_back, firstn_push_back2.
    + exists f. split; [reflexivity|].
      destruct f; cbn [func] in E; try discriminate E; auto.
  - destruct (vector_size_1 s Hs) as (w & b & ->).
    rewrite apply_Abs_push.
    replace (List.length (push_back w b) - Z.to_nat 1)%nat with (List.length w)
      by (unfold push_back; rewrite !length_app; simpl; lia).
    now rewrite !firstn_push_back.
  - cbn [Part002.apply]. destruct (cin_read cin) as [value cin1].
    change (Z.to_nat 0) with 0%nat. rewrite Nat.sub_0_r.
    rewrite firstn_push_back. now rewrite firstn_all.
  - destruct (vector_size_1 s Hs) as (w & b & ->).
    rewrite apply_Dup_push.
    replace (List.length (push_back w b) - Z.to_nat 1)%nat with (List.length w)
      by (unfold push_back; rewrite !length_app; simpl; lia).
    now rewrite firstn_push_back, firstn_push_back2.
  - cbn [Part002.apply]. reflexivity.
Qed.

Lemma primitive_frame_witness :
  is_Combine (Part002.BinaryOP minus) = false
  /\ Part002.get_arguments_count (Part002.BinaryOP minus) <= size [1; 2; 3]
  /\ Part002.apply (Part002.BinaryOP minus) [1; 2; 3] [] = Ok ([1; -1], [])
  /\ firstn 1 [1; -1] = firstn 1 [1; 2; 3].
Proof.
  split; [reflexivity|]. split; [discriminate|]. split; [reflexivity|].
  exact (primitive_frame (Part002.BinaryOP minus) [1; 2; 3] []
           eq_refl ltac:(discriminate)).
Defined.

(** * Further properties of part_002 and polka.cpp *)

(** ** Declared counts against what [apply] does *)

(** X1. Whenever [apply] returns, the input vector had at least
    [get_arguments_count] elements and the output has exactly
    [get_results_count] elements in place of them. *)
Theorem results_count_exact (st : Part002.Statement) (s s' : vector)
    (cin cin' : istream) :
  node_count st < 2 ^ 29 ->
  Part002.apply st s cin = Ok (s', cin') ->
  Part002.get_arguments_count st <= size s
  /\ size s' = size s - Part002.get_arguments_count st
               + Part002.get_results_count st.
Proof.
  intros Hn E.
  destruct (apply_depth st Hn s cin) as [Hge Hlt].
  destruct (Z_lt_ge_dec (size s) (Part002.get_arguments_count st)) as [H|H].
  - exfalso. exact (Hlt H _ E).
  - split; [lia|]. destruct Hge as [_ Hlen]; [lia|]. exact (Hlen s' cin' E).
Qed.

Lemma results_count_exact_witness :
  node_count (Part002.Combine Part002.Dup (Part002.BinaryOP multiplies)) < 2 ^ 29
  /\ Part002.apply (Part002.Combine Part002.Dup (Part002.BinaryOP multiplies))
       [7; 3] [] = Ok ([7; 9], [])
  /\ size [7; 9] = size [7; 3] - 1 + 1.
Proof.
  split; [reflexivity|]. split; [reflexivity|].
  exact (proj2 (results_count_exact
                  (Part002.Combine Part002.Dup (Part002.BinaryOP multiplies))
                  [7; 3] [7; 9] [] [] eq_refl eq_refl)).
Defined.

(** X2. A statement only looks at the top [get_arguments_count] elements:
    run on [base ++ top] with [top] deep enough, it does to [top] what it
    does to [top] alone and leaves [base] underneath. *)
Theorem apply_frame (st : Part002.Statement) :
  node_count st < 2 ^ 29 ->
  forall (base top : vector) (cin : istream),
    Part002.get_arguments_count st <= size top ->
    Part002.apply st (base ++ top) cin
    = outcome_map (fun p => (base ++ fst p, snd p)) (Part002.apply st top cin).
Proof.
  induction st as [l IHl r IHr| v | f | | | |]; intros Hn base top cin Hs.
  - destruct (Combine_counts l r Hn) as [Ea _]. rewrite Ea in Hs.
    cbn [node_count] in Hn.
    pose proof (node_count_pos l). pose proof (node_count_pos r).
    cbn [Part002.apply].
    rewrite (IHl ltac:(lia) base top cin ltac:(lia)).
    destruct (Part002.apply l top cin) as [[mid c]| |] eqn:El;
      [|reflexivity..].
    destruct (apply_depth l ltac:(lia) top cin) as [Hge _].
    destruct Hge as [_ Hlen]; [lia|]. specialize (Hlen mid c El).
    cbn. apply IHr; lia.
  - cbn [Part002.apply]. unfold Part002.ConstOp_apply, push_back. cbn.
    now rewrite app_assoc.
  - cbn [Part002.get_arguments_count] in Hs.
    destruct (vector_size_2 top Hs) as (w & a & b & ->).
    replace (base ++ push_back (push_back w a) b)
      with (push_back (push_back (base ++ w) a) b)
      by (unfold push_back; now rewrite !app_assoc).
    rewrite !apply_BinaryOP_push.
    destruct (func f a b); cbn; [|reflexivity..].
    unfold push_back. now rewrite app_assoc.
  - cbn [Part002.get_arguments_count] in Hs.
    destruct (vector_size_1 top Hs) as (w & b & ->).
    replace (base ++ push_back w b) with (push_back (base ++ w) b)
      by (unfold push_back; now rewrite !app_assoc).
    rewrite !apply_Abs_push. cbn. unfold push_back. now rewrite app_assoc.
  - cbn [Part002.apply]. destruct (cin_read cin) as [value cin1]. cbn.
    unfold push_back. now rewrite app_assoc.
  - cbn [Part002.get_arguments_count] in Hs.
    destruct (vector_size_1 top Hs) as (w & b & ->).
    replace (base ++ push_back w b) with (push_back (base ++ w) b)
      by (unfold push_back; now rewrite !app_assoc).
    rewrite !apply_Dup_push. cbn. unfold push_back. now rewrite !app_assoc.
  - reflexivity.
Qed.

Lemma apply_frame_witness :
  node_count (Part002.Combine Part002.Dup (Part002.BinaryOP multiplies)) < 2 ^ 29
  /\ Part002.get_arguments_count
       (Part002.Combine Part002.Dup (Part002.BinaryOP multiplies)) <= size [3]
  /\ Part002.apply (Part002.Combine Part002.Dup (Part002.BinaryOP multiplies))
       ([1; 2] ++ [3]) []
     = outcome_map (fun p => ([1; 2] ++ fst p, snd p))
         (Part002.apply (Part002.Combine Part002.Dup (Part002.BinaryOP multiplies))
            [3] []).
Proof.
  split; [reflexivity|]. split; [discriminate|].
  apply apply_frame; [reflexivity | discriminate].
Defined.

(** ** Laws of [operator|] *)

(** X3. [operator|] is associative up to observation: the two nestings of
    three statements evaluate alike and declare the same arguments, results
    and purity. *)
Theorem pipe_assoc (a b c : Part002.Statement) :
  node_count a + node_count b + node_count c < 2 ^ 29 - 2 ->
  let left := Part002.pipe (Part002.pipe a b) c in
  let right := Part002.pipe a (Part002.pipe b c) in
  (forall (s : vector) (cin : istream),
      Part002.apply left s cin = Part002.apply right s cin)
  /\ Part002.get_arguments_count left = Part002.get_arguments_count right
  /\ Part002.get_results_count left = Part002.get_results_count right
  /\ Part002.is_pure left = Part002.is_pure right.
Proof.
  intros Hn left right. subst left right. unfold Part002.pipe.
  pose proof (node_count_pos a). pose proof (node_count_pos b).
  pose proof (node_count_pos c).
  split; [|split; [|split]].
  - intros s cin. cbn [Part002.apply].
    destruct (Part002.apply a s cin) as [[s1 c1]| |]; cbn [bind];
      [|reflexivity..].
    destruct (Part002.apply b s1 c1) as [[s2 c2]| |]; reflexivity.
  - destruct (Combine_counts (Part002.Combine a b) c) as [E1 _];
      [cbn [node_count]; lia|].
    destruct (Combine_counts a b) as [E2 E3]; [cbn [node_count]; lia|].
    destruct (Combine_counts a (Part002.Combine b c)) as [E4 _];
      [cbn [node_count]; lia|].
    destruct (Combine_counts b c) as [E5 E6]; [cbn [node_count]; lia|].
    rewrite E1, E4, E2, E3, E5. lia.
  - destruct (Combine_counts (Part002.Combine a b) c) as [_ E1];
      [cbn [node_count]; lia|].
    destruct (Combine_counts a b) as [E2 E3]; [cbn [node_count]; lia|].
    destruct (Combine_counts a (Part002.Combine b c)) as [_ E4];
      [cbn [node_count]; lia|].
    destruct (Combine_counts b c) as [E5 E6]; [cbn [node_count]; lia|].
    rewrite E1, E4, E3, E5, E6. lia.
  - cbn [Part002.is_pure]. now rewrite andb_assoc.
Qed.

Lemma pipe_assoc_witness :
  node_count (Part002.ConstOp 6) + node_count Part002.Dup
    + node_count (Part002.BinaryOP multiplies) < 2 ^ 29 - 2
  /\ Part002.get_arguments_count
       (Part002.pipe (Part002.pipe (Part002.ConstOp 6) Part002.Dup)
          (Part002.BinaryOP multiplies))
     = Part002.get_arguments_count
         (Part002.pipe (Part002.ConstOp 6)
            (Part002.pipe Part002.Dup (Part002.BinaryOP multiplies))).
Proof.
  split; [reflexivity|].
  exact (proj1 (proj2 (pipe_assoc (Part002.ConstOp 6) Part002.Dup
                         (Part002.BinaryOP multiplies) eq_refl))).
Defined.

(** X4. [BlankStr], the statement of the empty string, is neutral for
    [operator|] on either side: same evaluation, same declared counts and
    purity as the other operand. *)
Theorem BlankStr_neutral (st : Part002.Statement) :
  node_count st < 2 ^ 29 - 2 ->
  forall (s : vector) (cin : istream),
    (Part002.apply (Part002.pipe Part002.BlankStr st) s cin = Part002.apply st s cin
     /\ Part002.apply (Part002.pipe st Part002.BlankStr) s cin = Part002.apply st s cin)
    /\ (Part002.get_arguments_count (Part002.pipe Part002.BlankStr st)
        = Part002.get_arguments_count st
        /\ Part002.get_arguments_count (Part002.pipe st Part002.BlankStr)
           = Part002.get_arguments_count st)
    /\ (Part002.get_results_count (Part002.pipe Part002.BlankStr st)
        = Part002.get_results_count st
        /\ Part002.get_results_count (Part002.pipe st Part002.BlankStr)
           = Part002.get_results_count st)
    /\ (Part002.is_pure (Part002.pipe Part002.BlankStr st) = Part002.is_pure st
        /\ Part002.is_pure (Part002.pipe st Part002.BlankStr) = Part002.is_pure st).
Proof.
  intros Hn s cin. unfold Part002.pipe.
  destruct (counts_bounds st) as [Ha Hr]; [lia|].
  destruct (Combine_counts Part002.BlankStr st) as [E1 E2];
    [cbn [node_count]; lia|].
  destruct (Combine_counts st Part002.BlankStr) as [E3 E4];
    [cbn [node_count]; lia|].
  rewrite E1, E2, E3, E4. cbn [Part002.get_arguments_count Part002.get_results_count].
  repeat split; try lia.
  - cbn [Part002.apply bind].
    destruct (Part002.apply st s cin) as [[s1 c1]| |]; reflexivity.
  - cbn [Part002.is_pure]. apply andb_true_r.
Qed.

Lemma BlankStr_neutral_witness :
  node_count Part002.Dup < 2 ^ 29 - 2
  /\ Part002.apply (Part002.pipe Part002.BlankStr Part002.Dup) [4] []
     = Part002.apply Part002.Dup [4] [].
Proof.
  split; [reflexivity|].
  exact (proj1 (proj1 (BlankStr_neutral Part002.Dup eq_refl [4] []))).
Defined.

(** ** What the optimizers keep *)

Lemma Part002_optimize_Combine (l r : Part002.Statement) :
  Part002.optimize (Part002.Combine l r)
  = if Part002.get_arguments_count (Part002.optimize r)
       >? Part002.get_results_count (Part002.optimize l)
    then Part002.Combine l r
    else match Part002.optimize l, Part002.optimize r with
         | Part002.ConstOp lv, Part002.ConstOp rv =>
             Part002.ConstOp
               (last (Part002.ConstOp_apply rv (Part002.ConstOp_apply lv [])) 0)
         | _, _ => Part002.Combine (Part002.optimize l) (Part002.optimize r)
         end.
Proof. reflexivity. Qed.

(** X5. part_002's [optimize] is idempotent: optimizing an optimized tree
    returns it unchanged. *)
Theorem Part002_optimize_idempotent (st : Part002.Statement) :
  Part002.optimize (Part002.optimize st) = Part002.optimize st.
Proof.
  induction st as [l IHl r IHr| | | | | |]; try reflexivity.
  rewrite Part002_optimize_Combine.
  destruct (Part002.get_arguments_count (Part002.optimize r)
            >? Part002.get_results_count (Part002.optimize l)) eqn:G.
  - rewrite Part002_optimize_Combine. now rewrite G.
  - destruct (Part002.optimize l) eqn:El; destruct (Part002.optimize r) eqn:Er;
      try reflexivity;
      rewrite Part002_optimize_Combine, IHl, IHr, G; reflexivity.
Qed.

Lemma Polka_optimize_Combine (l r : Part002.Statement) :
  Polka.optimize (Part002.Combine l r)
  = match Polka.optimize l, Polka.optimize r with
    | Part002.ConstOp lv, Part002.ConstOp rv =>
        Part002.ConstOp
          (to_int (nth 0 (Part002.ConstOp_apply lv []) 0
                   + nth 0 (Part002.ConstOp_apply rv []) 0))
    | _, _ => Part002.Combine (Polka.optimize l) (Polka.optimize r)
    end.
Proof. reflexivity. Qed.

(** X6. polka.cpp's [optimize] is idempotent as well. *)
Theorem Polka_optimize_idempotent (st : Part002.Statement) :
  Polka.optimize (Polka.optimize st) = Polka.optimize st.
Proof.
  induction st as [l IHl r IHr| | | | | |]; try reflexivity.
  rewrite Polka_optimize_Combine.
  destruct (Polka.optimize l) eqn:El; destruct (Polka.optimize r) eqn:Er;
    try reflexivity;
    rewrite Polka_optimize_Combine, IHl, IHr; reflexivity.
Qed.

Lemma Part002_optimize_node_count (st : Part002.Statement) :
  node_count (Part002.optimize st) <= node_count st.
Proof.
  induction st as [l IHl r IHr| | | | | |]; try (cbn; lia).
  rewrite Part002_optimize_Combine.
  destruct (_ >? _); [lia|].
  pose proof (node_count_pos l). pose proof (node_count_pos r).
  destruct (Part002.optimize l); destruct (Part002.optimize r);
    cbn [node_count] in *; lia.
Qed.

(** X7. part_002's [optimize] keeps the declared arguments and the purity
    of a statement, and never declares more results than before. *)
Theorem Part002_optimize_declarations (st : Part002.Statement) :
  node_count st < 2 ^ 29 ->
  Part002.get_arguments_count (Part002.optimize st)
  = Part002.get_arguments_count st
  /\ Part002.get_results_count (Part002.optimize st)
     <= Part002.get_results_count st
  /\ Part002.is_pure (Part002.optimize st) = Part002.is_pure st.
Proof.
  induction st as [l IHl r IHr| | | | | |]; intros Hn;
    try (cbn; repeat split; lia).
  pose proof (node_count_pos l). pose proof (node_count_pos r).
  pose proof (Part002_optimize_node_count l) as Nl.
  pose proof (Part002_optimize_node_count r) as Nr.
  destruct (Combine_counts l r Hn) as [Ea Er].
  cbn [node_count] in Hn.
  destruct (IHl ltac:(lia)) as (Al & Rl & Pl).
  destruct (IHr ltac:(lia)) as (Ar & Rr & Pr).
  destruct (counts_bounds l ltac:(lia)) as [Bla Blr].
  destruct (counts_bounds r ltac:(lia)) as [Bra Brr].
  destruct (counts_bounds (Part002.optimize l) ltac:(lia)) as [Bla' Blr'].
  destruct (counts_bounds (Part002.optimize r) ltac:(lia)) as [Bra' Brr'].
  rewrite Part002_optimize_Combine.
  destruct (Part002.get_arguments_count (Part002.optimize r)
            >? Part002.get_results_count (Part002.optimize l)) eqn:G.
  - repeat split; lia.
  - rewrite Z.gtb_ltb in G. apply Z.ltb_ge in G.
    assert (Hc : let st' := Part002.Combine (Part002.optimize l) (Part002.optimize r) in
                 Part002.get_arguments_count st' = Part002.get_arguments_count (Part002.Combine l r)
                 /\ Part002.get_results_count st' <= Part002.get_results_count (Part002.Combine l r)
                 /\ Part002.is_pure st' = Part002.is_pure (Part002.Combine l r)).
    { cbv zeta.
      destruct (Combine_counts (Part002.optimize l) (Part002.optimize r))
        as [Ea' Er']; [cbn [node_count]; lia|].
      rewrite Ea', Er', Ea, Er. cbn [Part002.is_pure]. rewrite Pl, Pr.
      repeat split; lia. }
    cbv zeta in Hc.
    destruct (Part002.optimize l) eqn:El; try exact Hc.
    destruct (Part002.optimize r) eqn:Eo; try exact Hc.
    rewrite Ea, Er. cbn [Part002.get_arguments_count Part002.get_results_count
                           Part002.is_pure] in *.
    rewrite <- Pl, <- Pr. repeat split; lia.
Qed.

Lemma Part002_optimize_declarations_witness :
  let st := Part002.Combine
              (Part002.Combine (Part002.ConstOp 1) (Part002.ConstOp 2))
              Part002.Dup in
  node_count st < 2 ^ 29
  /\ Part002.optimize st = Part002.Combine (Part002.ConstOp 2) Part002.Dup
  /\ Part002.get_arguments_count (Part002.optimize st)
     = Part002.get_arguments_count st.
Proof.
  cbv zeta. split; [reflexivity|]. split; [reflexivity|].
  apply Part002_optimize_declarations. reflexivity.
Defined.

(** ** Purity and standard input *)

(** X8. A part_002 statement that reports [is_pure] leaves [std::cin] as it
    found it, and its result vector is the same whatever [std::cin] holds. *)
Theorem pure_statement_ignores_cin (op : Part002.Statement) :
  Part002.is_pure op = true ->
  forall (s : vector) (cin other : istream),
    (forall s' cin', Part002.apply op s cin = Ok (s', cin') -> cin' = cin)
    /\ stack_of (Part002.apply op s cin) = stack_of (Part002.apply op s other).
Proof.
  intros Hp s cin other. split.
  - intros s' cin' E.
    rewrite (Part002_pure_apply_cin op Hp s cin other) in E.
    unfold outcome_map in E.
    destruct (Part002.apply op s other) as [[v c]| |]; cbn in E;
      [|discriminate..].
    now inversion E.
  - rewrite (Part002_pure_apply_cin op Hp s cin other).
    unfold stack_of, outcome_map.
    destruct (Part002.apply op s other) as [[v c]| |]; reflexivity.
Qed.

Lemma pure_statement_ignores_cin_witness :
  Part002.is_pure (Part002.Combine Part002.Dup (Part002.BinaryOP plus)) = true
  /\ stack_of (Part002.apply (Part002.Combine Part002.Dup (Part002.BinaryOP plus))
                 [4] [1; 2])
     = stack_of (Part002.apply (Part002.Combine Part002.Dup (Part002.BinaryOP plus))
                   [4] []).
Proof.
  split; [reflexivity|].
  exact (proj2 (pure_statement_ignores_cin
                  (Part002.Combine Part002.Dup (Part002.BinaryOP plus))
                  eq_refl [4] [1; 2] [])).
Defined.

(** ** What [compile] returns *)

Lemma regex_tokens_only_spaces (str : string) :
  only_spaces str = true -> regex_tokens EmptyString str = [].
Proof.
  induction str as [|c str IH]; [reflexivity|].
  cbn [only_spaces regex_tokens]. intros H.
  apply andb_true_iff in H as [Hc Hs]. apply Ascii.eqb_eq in Hc. subst c.
  cbn. now apply IH.
Qed.

Lemma find_operator_pure (token : string) (st : Part002.Statement) :
  Part002.find token Part002.operator_mapping = Some st ->
  Part002.is_pure st = negb (String.eqb "input" token).
Proof.
  unfold Part002.operator_mapping. cbn [Part002.find].
  repeat match goal with
         | |- context [String.eqb ?k token] =>
             destruct (String.eqb_spec k token) as [<-|_];
             [intros E; inversion E; reflexivity|]
         end.
  discriminate.
Qed.

Lemma find_operator_input (token : string) :
  Part002.find token Part002.operator_mapping = None ->
  String.eqb "input" token = false.
Proof.
  intros H. destruct (String.eqb_spec "input" token) as [<-|]; [|reflexivity].
  discriminate H.
Qed.

Lemma number_regex_not_input (token : string) :
  number_regex token = true -> String.eqb "input" token = false.
Proof.
  intros H. destruct (String.eqb_spec "input" token) as [<-|]; [|reflexivity].
  discriminate H.
Qed.

Lemma compile_tokens_pure (tokens : list string) :
  forall (ret : option Part002.Statement) (op : Part002.Statement),
    Part002.compile_tokens tokens ret = Return (Some op) ->
    Part002.is_pure op
    = match ret with Some r => Part002.is_pure r | None => true end
      && negb (existsb (String.eqb "input") tokens).
Proof.
  induction tokens as [|token rest IH]; intros ret op E.
  - cbn in E. inversion E. cbn. now rewrite andb_true_r.
  - cbn [Part002.compile_tokens] in E. cbn [existsb].
    destruct (number_regex token) eqn:Hn.
    + destruct (stoi token) as [v|]; [|discriminate].
      rewrite (IH _ _ E), (number_regex_not_input token Hn).
      destruct ret; cbn [Part002.extend Part002.pipe Part002.is_pure orb];
        now rewrite ?andb_true_r.
    + destruct (Part002.find token Part002.operator_mapping) as [st|] eqn:Hf.
      * rewrite (IH _ _ E). pose proof (find_operator_pure token st Hf) as Hp.
        destruct ret; cbn [Part002.extend Part002.pipe Part002.is_pure];
          rewrite Hp; destruct (String.eqb "input" token); cbn;
          now rewrite ?andb_false_r, ?andb_true_r.
      * rewrite (IH _ _ E), (find_operator_input token Hf). reflexivity.
Qed.

Lemma Part002_optimize_pure (st : Part002.Statement) :
  Part002.is_pure (Part002.optimize st) = Part002.is_pure st.
Proof.
  induction st as [l IHl r IHr| | | | | |]; try reflexivity.
  rewrite Part002_optimize_Combine.
  destruct (_ >? _); [reflexivity|].
  cbn [Part002.is_pure]. rewrite <- IHl, <- IHr.
  destruct (Part002.optimize l); destruct (Part002.optimize r); reflexivity.
Qed.

(** X9. What [compile] returns is pure exactly when no token of the string
    is [input]; this holds for polka.cpp's [compile] and for part_002's,
    which optimizes. *)
Theorem compile_pure_iff_no_input (str : string) (op : Part002.Statement) :
  Polka.compile str = Return (Some op)
  \/ Part002.compile str = Return (Some op) ->
  Part002.is_pure op
  = negb (existsb (String.eqb "input") (regex_tokens EmptyString str)).
Proof.
  unfold Polka.compile, Part002.compile.
  destruct (is_empty str || only_spaces str) eqn:Hb.
  - assert (Hs : only_spaces str = true).
    { destruct str; [reflexivity|]. exact Hb. }
    rewrite (regex_tokens_only_spaces str Hs).
    intros [E|E]; inversion E; reflexivity.
  - intros [E|E].
    + now rewrite (compile_tokens_pure _ _ _ E).
    + destruct (Part002.compile_tokens (regex_tokens EmptyString str) None)
        as [[st|]|] eqn:Ec; try discriminate E.
      cbn in E. inversion E.
      rewrite Part002_optimize_pure. now rewrite (compile_tokens_pure _ _ _ Ec).
Qed.

Lemma compile_pure_iff_no_input_witness :
  Polka.compile "1 input +"
  = Return (Some (Part002.Combine
                    (Part002.Combine (Part002.ConstOp 1) Part002.Input)
                    (Part002.BinaryOP plus)))
  /\ Part002.is_pure (Part002.Combine
                        (Part002.Combine (Part002.ConstOp 1) Part002.Input)
                        (Part002.BinaryOP plus))
     = negb (existsb (String.eqb "input") (regex_tokens EmptyString "1 input +")).
Proof.
  split; [reflexivity|].
  apply compile_pure_iff_no_input. left. reflexivity.
Defined.

Lemma compile_tokens_throw (tokens : list string) :
  forall ret : option Part002.Statement,
    Part002.compile_tokens tokens ret = Throw_out_of_range
    <-> existsb out_of_range_literal tokens = true.
Proof.
  induction tokens as [|token rest IH]; intros ret.
  - cbn. split; discriminate.
  - cbn [Part002.compile_tokens existsb]. unfold out_of_range_literal at 1.
    destruct (number_regex token); cbn [andb].
    + destruct (stoi token) as [v|]; cbn [orb]; [apply IH|].
      split; reflexivity.
    + cbn [orb].
      destruct (Part002.find token Part002.operator_mapping); apply IH.
Qed.

Lemma compile_tokens_null (tokens : list string) :
  forall ret : option Part002.Statement,
    Part002.compile_tokens tokens ret = Return None
    <-> ret = None /\ existsb recognised tokens = false.
Proof.
  induction tokens as [|token rest IH]; intros ret.
  - cbn. split.
    + intros E. inversion E. now split.
    + intros [-> _]. reflexivity.
  - cbn [Part002.compile_tokens existsb]. unfold recognised at 1.
    destruct (number_regex token); cbn [orb].
    + destruct (stoi token) as [v|].
      * rewrite IH. split; [|intros [_ H]; discriminate H].
        intros [H _]. destruct ret; discriminate H.
      * split; [discriminate|]. intros [_ H]; discriminate H.
    + destruct (Part002.find token Part002.operator_mapping); cbn [orb].
      * rewrite IH. split; [|intros [_ H]; discriminate H].
        intros [H _]. destruct ret; discriminate H.
      * apply IH.
Qed.

(** X10. The two ways in which [compile] yields no statement: it throws
    [std::out_of_range] exactly when some token is a literal outside [int],
    and it returns the null pointer exactly when the string is not blank and
    none of its tokens is a literal or an operator. The same holds for
    part_002's [compile]. *)
Theorem compile_throw_or_null (str : string) :
  let tokens := regex_tokens EmptyString str in
  (Polka.compile str = Throw_out_of_range
   <-> existsb out_of_range_literal tokens = true)
  /\ (Polka.compile str = Return None
      <-> only_spaces str = false /\ existsb recognised tokens = false)
  /\ (Part002.compile str = Throw_out_of_range
      <-> Polka.compile str = Throw_out_of_range)
  /\ (Part002.compile str = Return None <-> Polka.compile str = Return None).
Proof.
  intros tokens. subst tokens. unfold Polka.compile, Part002.compile.
  assert (Hb : is_empty str || only_spaces str = only_spaces str)
    by (destruct str; reflexivity).
  rewrite Hb.
  destruct (only_spaces str) eqn:Hs.
  - rewrite (regex_tokens_only_spaces str Hs). cbn.
    repeat split; try discriminate; intros [H _]; discriminate.
  - split; [apply compile_tokens_throw|].
    split.
    + rewrite compile_tokens_null. split; [intros [_ H]; now split|].
      intros [_ H]. now split.
    + destruct (Part002.compile_tokens (regex_tokens EmptyString str) None)
        as [[st|]|]; cbn; repeat split; try discriminate; reflexivity.
Qed.

(** ** Literals: from [std::to_string] back through [compile] *)

Ltac eval_digit :=
  match goal with
  | |- context [digit_value ?c] =>
      let v := eval vm_compute in (digit_value c) in
      change (digit_value c) with v
  end.

Lemma digits_value_acc (d : Decimal.uint) :
  forall acc : positive,
    digits_value (Z.pos acc) (DecimalString.NilEmpty.string_of_uint d)
    = Z.pos (Pos.of_uint_acc d acc).
Proof.
  induction d; intros acc; cbn [DecimalString.NilEmpty.string_of_uint
                                  digits_value Pos.of_uint_acc];
    [reflexivity|..];
    rewrite <- IHd; f_equal; eval_digit; lia.
Qed.

Lemma digits_value_uint (d : Decimal.uint) :
  digits_value 0 (DecimalString.NilEmpty.string_of_uint d)
  = Z.of_N (Pos.of_uint d).
Proof.
  induction d; cbn [DecimalString.NilEmpty.string_of_uint digits_value
                      Pos.of_uint]; [reflexivity|exact IHd|..];
    cbn [Z.of_N]; rewrite <- digits_value_acc; f_equal.
Qed.

Lemma all_digits_uint (d : Decimal.uint) :
  all_digits (DecimalString.NilEmpty.string_of_uint d) = true.
Proof. induction d; cbn; auto. Qed.

Lemma isdigit_not_space (c : ascii) : isdigit c = true -> isspace c = false.
Proof.
  unfold isdigit, isspace. intros H.
  apply andb_true_iff in H as [H1 H2].
  apply Nat.leb_le in H1, H2.
  destruct (Nat.eqb_spec (nat_of_ascii c) 32); [lia|].
  destruct (Nat.leb_spec 9 (nat_of_ascii c)); [|reflexivity].
  destruct (Nat.leb_spec (nat_of_ascii c) 13); [lia|reflexivity].
Qed.

Lemma append_EmptyString_r (s : string) : (s ++ EmptyString)%string = s.
Proof. induction s; cbn; congruence. Qed.

Lemma append_String_assoc (s1 s2 : string) (c : ascii) :
  ((s1 ++ String c EmptyString) ++ s2)%string = (s1 ++ String c s2)%string.
Proof. induction s1; cbn; congruence. Qed.

Lemma regex_tokens_digits (s : string) :
  forall cur : string,
    all_digits s = true ->
    is_empty (cur ++ s)%string = false ->
    regex_tokens cur s = [(cur ++ s)%string].
Proof.
  induction s as [|c s IH]; intros cur Hd Hne.
  - rewrite append_EmptyString_r in *. cbn. now rewrite Hne.
  - cbn [all_digits] in Hd. apply andb_true_iff in Hd as [Hc Hd].
    cbn [regex_tokens]. rewrite (isdigit_not_space c Hc).
    rewrite IH; rewrite ?append_String_assoc; auto.
Qed.

(** a literal is one token *)
Lemma regex_tokens_literal (token : string) :
  number_regex token = true ->
  regex_tokens EmptyString token = [token] /\ only_spaces token = false.
Proof.
  destruct token as [|c rest]; [discriminate|].
  unfold number_regex.
  destruct (Ascii.eqb c "-" || Ascii.eqb c "+")%char eqn:Hs.
  - intros H. apply andb_true_iff in H as [Hne Hd].
    assert (Hc : c = "-"%char \/ c = "+"%char).
    { apply orb_true_iff in Hs as [H|H]; apply Ascii.eqb_eq in H; auto. }
    split.
    + destruct Hc as [-> | ->].
      * change (regex_tokens EmptyString (String "-" rest))
          with (regex_tokens (String "-" EmptyString) rest).
        now rewrite regex_tokens_digits.
      * change (regex_tokens EmptyString (String "+" rest))
          with (regex_tokens (String "+" EmptyString) rest).
        now rewrite regex_tokens_digits.
    + destruct Hc as [-> | ->]; reflexivity.
  - intros H. cbn [all_digits] in H.
    pose proof H as H'. apply andb_true_iff in H' as [Hc Hd].
    split.
    + now rewrite regex_tokens_digits.
    + cbn [only_spaces].
      destruct (Ascii.eqb_spec c " "%char) as [-> |]; [discriminate Hc|reflexivity].
Qed.

(** a string that is one literal compiles to its [ConstOp] *)
Lemma compile_literal (token : string) (v : Z) :
  number_regex token = true ->
  stoi token = Some v ->
  Polka.compile token = Return (Some (Part002.ConstOp v))
  /\ Part002.compile token = Return (Some (Part002.ConstOp v)).
Proof.
  intros Hn Hv. destruct (regex_tokens_literal token Hn) as [Ht Hs].
  unfold Polka.compile, Part002.compile.
  replace (is_empty token || only_spaces token) with false
    by (destruct token; [discriminate Hn | now rewrite Hs]).
  rewrite Ht. cbn [Part002.compile_tokens]. rewrite Hn, Hv.
  split; reflexivity.
Qed.

Lemma to_uint_digits (p : positive) :
  exists c s,
    DecimalString.NilEmpty.string_of_uint (Pos.to_uint p) = String c s
    /\ isdigit c = true /\ all_digits s = true
    /\ DecimalString.NilZero.string_of_uint (Pos.to_uint p) = String c s.
Proof.
  pose proof (DecimalPos.Unsigned.to_uint_nonnil p) as Hnil.
  pose proof (all_digits_uint (Pos.to_uint p)) as Hd.
  destruct (Pos.to_uint p) eqn:E; [congruence|..];
    cbn [DecimalString.NilEmpty.string_of_uint] in *;
    eexists _, _; (split; [reflexivity|]);
    cbn [all_digits] in Hd; apply andb_true_iff in Hd as [H1 H2];
    repeat split; auto.
Qed.

Lemma stoi_digits (c : ascii) (s : string) :
  isdigit c = true ->
  stoi (String c s)
  = let v := digits_value 0 (String c s) in
    if (INT_MIN <=? v) && (v <=? INT_MAX) then Some v else None.
Proof.
  intros H. unfold stoi.
  destruct (Ascii.eqb_spec c "-"%char) as [-> |Hm]; [discriminate H|].
  destruct (Ascii.eqb_spec c "+"%char) as [-> |Hp]; [discriminate H|].
  destruct c as [[] [] [] [] [] [] [] []]; try reflexivity; congruence.
Qed.

Lemma digits_value_to_uint (p : positive) :
  digits_value 0 (DecimalString.NilEmpty.string_of_uint (Pos.to_uint p)) = Z.pos p.
Proof.
  rewrite digits_value_uint, DecimalPos.Unsigned.of_to. reflexivity.
Qed.

Lemma number_regex_digits (c : ascii) (s : string) :
  isdigit c = true -> all_digits s = true ->
  number_regex (String c s) = true
  /\ number_regex (String "-" (String c s)) = true
  /\ number_regex (String "+" (String c s)) = true.
Proof.
  intros Hc Hs. unfold number_regex.
  destruct (Ascii.eqb_spec c "-"%char) as [-> |Hm]; [discriminate Hc|].
  destruct (Ascii.eqb_spec c "+"%char) as [-> |Hp]; [discriminate Hc|].
  cbn. now rewrite Hc, Hs.
Qed.

Lemma in_range_check (v : Z) :
  is_int v -> (INT_MIN <=? v) && (v <=? INT_MAX) = true.
Proof.
  intros [H1 H2]. apply andb_true_iff.
  split; now apply Z.leb_le.
Qed.

(** X11. Printing an [int] with [std::to_string] and compiling the digits
    gives back the literal, in polka.cpp and in part_002; for a non-negative
    [int] a leading [+] gives the same literal and a leading [-] its
    opposite. This is what the loops of the [main] functions assert. *)
Theorem compile_to_string (i : Z) :
  is_int i ->
  (Polka.compile (to_string i) = Return (Some (Part002.ConstOp i))
   /\ Part002.compile (to_string i) = Return (Some (Part002.ConstOp i)))
  /\ (0 <= i ->
      Polka.compile (String "+" (to_string i)) = Return (Some (Part002.ConstOp i))
      /\ Polka.compile (String "-" (to_string i))
         = Return (Some (Part002.ConstOp (- i)))).
Proof.
  intros Hi. destruct i as [|p|p].
  - split; [split; reflexivity|]. intros _. split; reflexivity.
  - unfold to_string. cbn [Z.to_int Pos.to_int DecimalString.NilZero.string_of_int].
    destruct (to_uint_digits p) as (c & s & E & Hc & Hs & E0). rewrite E0.
    pose proof (digits_value_to_uint p) as Hv. rewrite E in Hv.
    destruct (number_regex_digits c s Hc Hs) as (N1 & N2 & N3).
    split.
    + apply compile_literal; [exact N1|].
      rewrite (stoi_digits c s Hc). cbv zeta. rewrite Hv.
      now rewrite (in_range_check _ Hi).
    + intros _. split.
      * apply compile_literal; [exact N3|].
        unfold stoi. rewrite Hv. now rewrite (in_range_check _ Hi).
      * apply compile_literal; [exact N2|].
        unfold stoi. rewrite Hv.
        rewrite in_range_check; [reflexivity|].
        unfold is_int, INT_MIN, INT_MAX in *. lia.
  - unfold to_string. cbn [Z.to_int Pos.to_int DecimalString.NilZero.string_of_int].
    destruct (to_uint_digits p) as (c & s & E & Hc & Hs & E0). rewrite E0.
    pose proof (digits_value_to_uint p) as Hv. rewrite E in Hv.
    destruct (number_regex_digits c s Hc Hs) as (N1 & N2 & N3).
    split; [|lia].
    apply compile_literal; [exact N2|].
    unfold stoi. rewrite Hv.
    change (- Z.pos p) with (Z.neg p). now rewrite (in_range_check _ Hi).
Qed.

Lemma compile_to_string_witness :
  is_int 417
  /\ to_string 417 = "417"
  /\ Polka.compile (to_string 417) = Return (Some (Part002.ConstOp 417)).
Proof.
  assert (H : is_int 417) by (unfold is_int, INT_MIN, INT_MAX; lia).
  split; [exact H|]. split; [reflexivity|].
  exact (proj1 (proj1 (compile_to_string 417 H))).
Defined.

(** ** The chains of increments built by [main] *)

Lemma to_int_succ (k : Z) : to_int (to_int k + 1) = to_int (k + 1).
Proof.
  unfold to_int. f_equal.
  replace ((k + 2 ^ 31) mod 2 ^ 32 - 2 ^ 31 + 1 + 2 ^ 31)
    with ((k + 2 ^ 31) mod 2 ^ 32 + 1) by lia.
  rewrite Z.add_mod_idemp_l by lia. f_equal. lia.
Qed.

(** X12. Piping [n] copies of [compile("1 +")] behind [compile("1")], as
    the loop of [main] does, gives a pure statement that pushes [1 + n]
    (reduced to [int]) on whatever stack it is given. *)
Theorem long_sequence_test_apply (n : nat) (s : vector) (cin : istream) :
  Polka.compile "1" = Return (Some (long_sequence_test 0))
  /\ Polka.compile "1 +" = Return (Some inc)
  /\ Part002.is_pure (long_sequence_test n) = true
  /\ Part002.apply (long_sequence_test n) s cin
     = Ok (push_back s (to_int (1 + Z.of_nat n)), cin).
Proof.
  split; [reflexivity|]. split; [reflexivity|].
  induction n as [|n [IHp IHa]].
  - split; reflexivity.
  - split.
    + cbn [long_sequence_test]. unfold Part002.pipe.
      cbn [Part002.is_pure]. now rewrite IHp.
    + replace (1 + Z.of_nat (S n)) with (1 + Z.of_nat n + 1) by lia.
      rewrite <- to_int_succ.
      cbn [long_sequence_test]. unfold Part002.pipe, inc.
      cbn [Part002.apply]. rewrite IHa.
      cbn [bind]. unfold Part002.ConstOp_apply.
      rewrite back_push_back. cbn [bind].
      rewrite pop_back_push_back. cbn [bind].
      rewrite back_push_back. cbn [bind].
      rewrite pop_back_push_back. reflexivity.
Qed.

(** ** part_003 and its guard *)

(** X13. In part_003 only [Abs] and [Dup] can run off the vector: a
    statement without them returns on every stack, short ones included,
    unless a division has no value. *)
Theorem Part003_guarded_never_underflows (st : Part003.Statement) :
  no_Abs_Dup st = true ->
  forall (v : vector) (cin : istream), Part003.apply st v cin <> UB_empty.
Proof.
  induction st as [l IHl r IHr| c | f | | | |]; intros Hg v cin;
    try discriminate Hg; try (cbn; discriminate).
  - cbn [no_Abs_Dup] in Hg. apply andb_true_iff in Hg as [Hl Hr].
    cbn [Part003.apply].
    pose proof (IHl Hl v cin) as Il.
    destruct (Part003.apply l v cin) as [[v1 c1]| |]; cbn [bind];
      [|congruence|discriminate].
    apply (IHr Hr).
  - cbn [Part003.apply].
    destruct (size v <? 2) eqn:E; [discriminate|].
    apply Z.ltb_ge in E.
    destruct (vector_size_2 v E) as (w & a & b & ->).
    rewrite back_push_back. cbn [bind].
    rewrite pop_back_push_back. cbn [bind].
    rewrite back_push_back. cbn [bind].
    rewrite pop_back_push_back. cbn [bind].
    pose proof (func_not_UB_empty f a b).
    destruct (func f a b); cbn [bind]; [discriminate|congruence|discriminate].
  - cbn [Part003.apply]. destruct (cin_read cin). discriminate.
Qed.

Lemma Part003_guarded_never_underflows_witness :
  no_Abs_Dup (Part003.Combine (Part003.BinaryOP plus) (Part003.ConstOp 5)) = true
  /\ Part003.apply (Part003.Combine (Part003.BinaryOP plus) (Part003.ConstOp 5))
       [] [] <> UB_empty.
Proof.
  split; [reflexivity|].
  apply Part003_guarded_never_underflows. reflexivity.
Defined.

(** ** part_004 and its unsigned arithmetic *)

Lemma Part004_counts_range (st : Part004.Statement) :
  0 <= Part004.get_arguments_count st < 2 ^ 32
  /\ 0 <= Part004.get_results_count st < 2 ^ 32.
Proof.
  induction st as [l [IHla IHlr] r [IHra IHrr]| | | | |];
    try (cbn; lia).
  cbn [Part004.get_arguments_count Part004.get_results_count].
  unfold to_unsigned.
  pose proof (Z.mod_pos_bound
                (Part004.get_arguments_count r - Part004.get_results_count l)
                (2 ^ 32) ltac:(lia)).
  split; [lia|]. apply Z.mod_pos_bound. lia.
Qed.

(** X14. In part_004 the difference [r_args - l_results] is taken in
    [unsigned]: whenever the right child needs fewer arguments than the
    left child has results, the sequence declares at least
    2^32 - l.results arguments. *)
Theorem Part004_arguments_wrap (l r : Part004.Statement) :
  Part004.get_arguments_count r < Part004.get_results_count l ->
  Part004.get_arguments_count (Part004.Combine l r)
  = Z.max (Part004.get_arguments_count l)
          (2 ^ 32 - (Part004.get_results_count l - Part004.get_arguments_count r))
  /\ 2 ^ 32 - Part004.get_results_count l
     <= Part004.get_arguments_count (Part004.Combine l r).
Proof.
  intros H.
  destruct (Part004_counts_range l) as [Hla Hlr].
  destruct (Part004_counts_range r) as [Hra Hrr].
  cbn [Part004.get_arguments_count]. unfold to_unsigned.
  replace ((Part004.get_arguments_count r - Part004.get_results_count l) mod 2 ^ 32)
    with (2 ^ 32 - (Part004.get_results_count l - Part004.get_arguments_count r)).
  - split; lia.
  - apply Z.mod_unique with (q := -1); lia.
Qed.

Lemma Part004_arguments_wrap_witness :
  Part004.get_arguments_count (Part004.ConstOp 4)
    < Part004.get_results_count (Part004.ConstOp 1)
  /\ Part004.compile "1 4"
     = Some (Some (Part004.Combine (Part004.ConstOp 1) (Part004.ConstOp 4)))
  /\ Part004.get_arguments_count
       (Part004.Combine (Part004.ConstOp 1) (Part004.ConstOp 4))
     = Z.max 0 (2 ^ 32 - (1 - 0)).
Proof.
  split; [reflexivity|]. split; [reflexivity|].
  exact (proj1 (Part004_arguments_wrap (Part004.ConstOp 1) (Part004.ConstOp 4)
                  eq_refl)).
Defined.

(** ** Termination of the hand-written scanners *)

Lemma consume_space_length (s : string) :
  (String.length (consume_space s) <= String.length s)%nat.
Proof.
  induction s as [|c s IH]; cbn [consume_space]; [lia|].
  destruct (Ascii.eqb c " "); cbn [String.length]; lia.
Qed.

Lemma consume_space_idem (s : string) :
  consume_space (consume_space s) = consume_space s.
Proof.
  induction s as [|c s IH]; [reflexivity|].
  cbn [consume_space]. destruct (Ascii.eqb c " ") eqn:E; [exact IH|].
  cbn [consume_space]. now rewrite E.
Qed.

Lemma scan_digits_len (s : string) :
  forall (number : Z) (len : nat),
    (len <= snd (scan_digits number len s))%nat.
Proof.
  induction s as [|c s IH]; intros number len; cbn [scan_digits]; [cbn; lia|].
  destruct (isdigit c); [|cbn; lia].
  specialize (IH (to_int (number * 10 + digit_value c)) (S len)). lia.
Qed.

Lemma remove_prefix_length (n : nat) :
  forall s : string,
    (String.length (remove_prefix n s) <= String.length s)%nat
    /\ ((0 < n)%nat -> is_empty s = false ->
        (String.length (remove_prefix n s) < String.length s)%nat).
Proof.
  induction n as [|n IH]; intros s.
  - cbn. split; lia.
  - destruct s as [|c s]; cbn [remove_prefix String.length].
    + split; [lia|]. intros _ H. discriminate H.
    + destruct (IH s) as [H1 _]. split; lia.
Qed.

Section Part003_scanner.
Import Part003.

Lemma parse_num_minus_digit (d : ascii) (r : string) :
  isdigit d = true ->
  exists v s1,
    parse_num (String "-" (String d r)) = (Some v, s1)
    /\ (String.length s1 <= String.length r)%nat.
Proof.
  intros Hd. unfold parse_num. rewrite Hd.
  pose proof (scan_digits_len r (to_int (0 * 10 + digit_value d)) 1) as Hl.
  cbn [scan_digits]. rewrite Hd.
  destruct (scan_digits (to_int (0 * 10 + digit_value d)) 1 r) as [number len].
  cbn [snd] in Hl.
  destruct len as [|len]; [lia|].
  cbn [Nat.ltb Nat.leb remove_prefix].
  eexists _, _. split; [reflexivity|].
  apply remove_prefix_length.
Qed.

Lemma parse_num_plain (s : string) :
  (forall d r, s = String "-" (String d r) -> isdigit d = false) ->
  parse_num s
  = let '(number, len) := scan_digits 0 0 s in
    if (0 <? len)%nat then (Some number, remove_prefix len s) else (None, s).
Proof.
  intros H. unfold parse_num.
  destruct s as [|c [|d r]]; try reflexivity.
  - destruct c as [[] [] [] [] [] [] [] []]; reflexivity.
  - destruct (Ascii.eqb_spec c "-"%char) as [-> |Hc].
    + now rewrite (H d r eq_refl).
    + destruct c as [[] [] [] [] [] [] [] []]; try reflexivity; congruence.
Qed.

Lemma parse_num_cases (s : string) (o : option Z) (s1 : string) :
  is_empty s = false ->
  parse_num s = (o, s1) ->
  match o with
  | Some _ => (String.length s1 < String.length s)%nat
  | None => s1 = s
  end.
Proof.
  intros Hne E.
  assert (Hcase : (exists d r, s = String "-" (String d r) /\ isdigit d = true)
                  \/ (forall d r, s = String "-" (String d r) -> isdigit d = false)).
  { destruct s as [|c [|d r]]; try (right; intros; discriminate).
    destruct (Ascii.eqb_spec c "-"%char) as [-> |Hc];
      [|right; intros ? ? E'; inversion E'; congruence].
    destruct (isdigit d) eqn:Hd; [left; eauto|].
    right. intros ? ? E'. inversion E'. now subst. }
  destruct Hcase as [(d & r & -> & Hd)|Hplain].
  - destruct (parse_num_minus_digit d r Hd) as (v & s2 & E2 & Hl).
    rewrite E2 in E. inversion E. subst. cbn [String.length]. lia.
  - rewrite (parse_num_plain s Hplain) in E.
    destruct (scan_digits 0 0 s) as [number len].
    destruct (Nat.ltb_spec 0 len) as [Hlen|Hlen]; inversion E; subst.
    + now apply remove_prefix_length.
    + reflexivity.
Qed.

Lemma first_prefix_token (s : string) (token : string) (st : Statement) :
  first_prefix s operator_mappings = Some (token, st) ->
  (0 < String.length token)%nat.
Proof.
  unfold operator_mappings. cbn [first_prefix].
  repeat match goal with
         | |- context [String.prefix ?k s] =>
             destruct (String.prefix k s);
             [intros E; inversion E; cbn; lia|]
         end.
  discriminate.
Qed.

Lemma compile_loop_S (fuel : nat) (str : string) (ret : option Statement) :
  compile_loop (S fuel) str ret
  = if is_empty str then Some ret
    else
      let str := consume_space str in
      if is_empty str then Some ret
      else
        match parse_num str with
        | (Some number, str1) => compile_loop fuel str1 (extend ret (ConstOp number))
        | (None, str1) =>
            match first_prefix str1 operator_mappings with
            | Some (token, st) =>
                compile_loop fuel
                  (consume_space (remove_prefix (String.length token) str1))
                  (extend ret st)
            | None => compile_loop fuel str1 ret
            end
        end.
Proof. reflexivity. Qed.

(** a position at which nothing can be consumed is never left *)
Lemma compile_loop_stuck (s : string) :
  consume_space s = s ->
  is_empty s = false ->
  parse_num s = (None, s) ->
  first_prefix s operator_mappings = None ->
  forall (fuel : nat) (ret : option Statement), compile_loop fuel s ret = None.
Proof.
  intros Hs Hne Hp Hf fuel ret.
  induction fuel as [|fuel IH]; [reflexivity|].
  rewrite compile_loop_S. cbv zeta. rewrite Hne, Hs, Hne, Hp, Hf. exact IH.
Qed.

Lemma compile_loop_mono (fuel : nat) :
  forall (str : string) (ret r : option Statement),
    compile_loop fuel str ret = Some r ->
    compile_loop (S fuel) str ret = Some r.
Proof.
  induction fuel as [|fuel IH]; intros str ret r E; [discriminate|].
  rewrite compile_loop_S in E. rewrite compile_loop_S. cbv zeta in *.
  destruct (is_empty str); [exact E|].
  destruct (is_empty (consume_space str)); [exact E|].
  destruct (parse_num (consume_space str)) as [[number|] str1].
  - now apply IH.
  - destruct (first_prefix str1 operator_mappings) as [[token st]|];
      now apply IH.
Qed.

Lemma compile_loop_mono_le (n m : nat) (str : string) (ret r : option Statement) :
  (n <= m)%nat ->
  compile_loop n str ret = Some r -> compile_loop m str ret = Some r.
Proof.
  induction 1 as [|m Hle IH]; [auto|].
  intros E. apply compile_loop_mono. auto.
Qed.

Lemma compile_loop_adequate (fuel : nat) :
  forall (str : string) (ret : option Statement),
    (String.length str < fuel)%nat ->
    compile_loop fuel str ret = None ->
    forall m : nat, compile_loop m str ret = None.
Proof.
  induction fuel as [|fuel IH]; intros str ret Hlen E m; [lia|].
  rewrite compile_loop_S in E. cbv zeta in E.
  destruct (is_empty str) eqn:He; [discriminate|].
  pose proof (consume_space_length str) as Hcs.
  destruct (is_empty (consume_space str)) eqn:Hes; [discriminate|].
  destruct (parse_num (consume_space str)) as [o str1] eqn:Hp.
  pose proof (parse_num_cases _ _ _ Hes Hp) as Hc.
  destruct m as [|m]; [reflexivity|].
  rewrite compile_loop_S. cbv zeta. rewrite He, Hes, Hp.
  destruct o as [number|].
  - apply (IH str1); [lia|exact E].
  - subst str1.
    destruct (first_prefix (consume_space str) operator_mappings)
      as [[token st]|] eqn:Hf.
    + pose proof (first_prefix_token _ _ _ Hf) as Ht.
      pose proof (consume_space_length
                    (remove_prefix (String.length token) (consume_space str)))
        as Hcs2.
      destruct (remove_prefix_length (String.length token) (consume_space str))
        as [_ Hlt].
      specialize (Hlt Ht Hes).
      apply (IH (consume_space
                   (remove_prefix (String.length token) (consume_space str))));
        [lia|exact E].
    + apply compile_loop_stuck; auto using consume_space_idem.
Qed.

End Part003_scanner.

(** X15. part_003's [compile] either leaves its loop within
    [length + 1] iterations, and then every larger number of iterations
    gives the same statement, or it never leaves it, whatever the number of
    iterations. *)
Theorem Part003_compile_decides (str : string) :
  match Part003.compile str with
  | Some ret =>
      forall fuel : nat,
        (S (String.length str) <= fuel)%nat ->
        Part003.compile_fuel fuel str = Some ret
  | None => forall fuel : nat, Part003.compile_fuel fuel str = None
  end.
Proof.
  unfold Part003.compile, Part003.compile_fuel.
  destruct (is_empty str); [intros; reflexivity|].
  destruct (Part003.compile_loop (S (String.length str)) str None) as [ret|] eqn:E.
  - intros fuel Hle. exact (compile_loop_mono_le _ _ _ _ _ Hle E).
  - intros fuel.
    apply (compile_loop_adequate (S (String.length str))); [lia|exact E].
Qed.

Section Part004_scanner.
Import Part004.

Lemma Part004_compile_loop_S (fuel : nat) (str : string) (ret : option Statement) :
  compile_loop (S fuel) str ret
  = match str with
    | EmptyString => Some ret
    | String c _ =>
        if Ascii.eqb c " "%char then compile_loop fuel (consume_space str) ret
        else
          match first_token str operator_mappings with
          | Some (str1, st) => compile_loop fuel str1 (extend ret st)
          | None =>
              let '(number, len) := scan_digits 0 0 str in
              compile_loop fuel (remove_prefix len str)
                (extend ret (ConstOp number))
          end
    end.
Proof. reflexivity. Qed.

Lemma consume_token_shorter (p str str1 : string) :
  is_empty str = false ->
  consume_token p str = Some str1 ->
  (String.length str1 < String.length str)%nat.
Proof.
  intros Hne. unfold consume_token.
  destruct (String.eqb str p).
  - intros E. inversion E. destruct str; [discriminate|cbn; lia].
  - destruct (_ && _); [|discriminate].
    intros E. inversion E.
    apply remove_prefix_length; [lia|exact Hne].
Qed.

Lemma first_token_shorter (str : string) (m : list (string * Statement))
    (str1 : string) (st : Statement) :
  is_empty str = false ->
  first_token str m = Some (str1, st) ->
  (String.length str1 < String.length str)%nat.
Proof.
  intros Hne. induction m as [|[token st0] m IH]; [discriminate|].
  cbn [first_token].
  destruct (consume_token token str) as [s|] eqn:E; [|exact IH].
  intros E'. inversion E'. subst. exact (consume_token_shorter _ _ _ Hne E).
Qed.

(** a character that starts neither a token nor a number is never passed:
    the loop appends [ConstOp 0] for ever *)
Lemma Part004_compile_loop_stuck (c : ascii) (r : string) (number : Z) :
  Ascii.eqb c " "%char = false ->
  first_token (String c r) operator_mappings = None ->
  scan_digits 0 0 (String c r) = (number, O) ->
  forall (fuel : nat) (ret : option Statement),
    compile_loop fuel (String c r) ret = None.
Proof.
  intros Hc Hf Hs fuel.
  induction fuel as [|fuel IH]; intros ret; [reflexivity|].
  rewrite Part004_compile_loop_S, Hc, Hf, Hs. apply IH.
Qed.

Lemma Part004_compile_loop_mono (fuel : nat) :
  forall (str : string) (ret r : option Statement),
    compile_loop fuel str ret = Some r ->
    compile_loop (S fuel) str ret = Some r.
Proof.
  induction fuel as [|fuel IH]; intros str ret r E; [discriminate|].
  rewrite Part004_compile_loop_S in E. rewrite Part004_compile_loop_S.
  destruct str as [|c s]; [exact E|].
  destruct (Ascii.eqb c " "); [now apply IH|].
  destruct (first_token (String c s) operator_mappings) as [[str1 st]|];
    [now apply IH|].
  destruct (scan_digits 0 0 (String c s)) as [number len]. now apply IH.
Qed.

Lemma Part004_compile_loop_mono_le (n m : nat) (str : string)
    (ret r : option Statement) :
  (n <= m)%nat ->
  compile_loop n str ret = Some r -> compile_loop m str ret = Some r.
Proof.
  induction 1 as [|m Hle IH]; [auto|].
  intros E. apply Part004_compile_loop_mono. auto.
Qed.

Lemma Part004_compile_loop_adequate (fuel : nat) :
  forall (str : string) (ret : option Statement),
    (String.length str < fuel)%nat ->
    compile_loop fuel str ret = None ->
    forall m : nat, compile_loop m str ret = None.
Proof.
  induction fuel as [|fuel IH]; intros str ret Hlen E m; [lia|].
  rewrite Part004_compile_loop_S in E.
  destruct str as [|c s]; [discriminate|].
  destruct m as [|m]; [reflexivity|].
  rewrite Part004_compile_loop_S.
  destruct (Ascii.eqb c " ") eqn:Hc.
  - apply (IH (consume_space (String c s))); [|exact E].
    cbn [consume_space]. rewrite Hc.
    pose proof (consume_space_length s). cbn [String.length] in Hlen. lia.
  - destruct (first_token (String c s) operator_mappings) as [[str1 st]|] eqn:Hf.
    + apply (IH str1); [|exact E].
      pose proof (first_token_shorter (String c s) _ _ _ eq_refl Hf). lia.
    + destruct (scan_digits 0 0 (String c s)) as [number len] eqn:Hs.
      destruct len as [|len].
      * change (remove_prefix 0 (String c s)) with (String c s).
        apply (Part004_compile_loop_stuck c s number Hc Hf Hs).
      * apply (IH (remove_prefix (S len) (String c s))); [|exact E].
        destruct (remove_prefix_length (S len) (String c s)) as [_ Hlt].
        specialize (Hlt ltac:(lia) eq_refl). lia.
Qed.

End Part004_scanner.

(** X16. part_004's [compile] too either leaves its loop within
    [length + 1] iterations, with the same result for every larger number
    of iterations, or never leaves it. *)
Theorem Part004_compile_decides (str : string) :
  match Part004.compile str with
  | Some ret =>
      forall fuel : nat,
        (S (String.length str) <= fuel)%nat ->
        Part004.compile_loop fuel str None = Some ret
  | None => forall fuel : nat, Part004.compile_loop fuel str None = None
  end.
Proof.
  unfold Part004.compile.
  destruct (Part004.compile_loop (S (String.length str)) str None) as [ret|] eqn:E.
  - intros fuel Hle. exact (Part004_compile_loop_mono_le _ _ _ _ _ Hle E).
  - intros fuel.
    apply (Part004_compile_loop_adequate (S (String.length str))); [lia|exact E].
Qed.

(** * The search tree of part_000 *)

From Stdlib Require Import Sorted.

Section SearchingTree_facts.
Import Part000.
Variable V : Type.

Lemma find_node (k0 : Z) (v0 : V) (l r : Pair V) (key : Z) :
  find (node k0 v0 l r) key
  = if key <? k0 then find l key
    else if key >? k0 then find r key
    else Some (k0, v0).
Proof.
  unfold Part000.find. cbn [findNode].
  destruct (key <? k0); [reflexivity|].
  destruct (key >? k0); reflexivity.
Qed.

(** X17. After [insert(key, value)], [find(key)] succeeds: it returns the
    pair that was already stored under [key] if there was one ([insert]
    does not overwrite), and [(key, value)] otherwise; every other key is
    found as before. *)
Theorem find_insert (root : Pair V) (key : Z) (value : V) :
  find (insert root key value) key
  = match find root key with
    | Some p => Some p
    | None => Some (key, value)
    end
  /\ forall other : Z, other <> key ->
       find (insert root key value) other = find root other.
Proof.
  induction root as [|k0 v0 l [IHl1 IHl2] r [IHr1 IHr2]].
  - cbn [Part000.insert]. split.
    + rewrite find_node, Z.ltb_irrefl, Z.gtb_ltb, Z.ltb_irrefl. reflexivity.
    + intros other Hne. rewrite find_node, Z.gtb_ltb.
      destruct (Z.ltb_spec other key); [reflexivity|].
      destruct (Z.ltb_spec key other); [reflexivity|lia].
  - cbn [Part000.insert]. rewrite (find_node k0 v0 l r key).
    destruct (key <? k0) eqn:E1; [|destruct (key >? k0) eqn:E2].
    + split.
      * now rewrite find_node, E1.
      * intros other Hne. rewrite !find_node, (IHl2 other Hne). reflexivity.
    + split.
      * now rewrite find_node, E1, E2.
      * intros other Hne. rewrite !find_node, (IHr2 other Hne). reflexivity.
    + split.
      * now rewrite find_node, E1, E2.
      * reflexivity.
Qed.

Lemma Forall_insert (P : Z * V -> Prop) (root : Pair V) (key : Z) (value : V) :
  Forall P (inorder root) -> P (key, value) ->
  Forall P (inorder (insert root key value)).
Proof.
  intros H Hp. induction root as [|k0 v0 l IHl r IHr].
  - cbn. auto.
  - cbn [Part000.inorder] in H. apply Forall_app in H as [Hl Hr].
    inversion Hr as [|? ? H0 Hr']; subst.
    cbn [Part000.insert].
    destruct (key <? k0); [|destruct (key >? k0)];
      cbn [Part000.inorder]; apply Forall_app; auto.
Qed.

(** X18. [insert] keeps the search-tree order. *)
Theorem insert_ordered (root : Pair V) (key : Z) (value : V) :
  ordered root -> ordered (insert root key value).
Proof.
  induction root as [|k0 v0 l IHl r IHr]; intros H.
  - cbn. auto.
  - cbn [Part000.ordered] in H. destruct H as (Hl & Hr & Fl & Fr).
    cbn [Part000.insert].
    destruct (Z.ltb_spec key k0) as [Hlt|Hge].
    + cbn [Part000.ordered]. repeat split; auto.
      apply Forall_insert; auto.
    + rewrite Z.gtb_ltb. destruct (Z.ltb_spec k0 key) as [Hgt|Hle].
      * cbn [Part000.ordered]. repeat split; auto.
        apply Forall_insert; auto.
      * cbn [Part000.ordered]. auto.
Qed.

Lemma find_In (root : Pair V) (key : Z) (p : Z * V) :
  ordered root ->
  (find root key = Some p <-> In p (inorder root) /\ fst p = key).
Proof.
  induction root as [|k0 v0 l IHl r IHr]; intros H.
  - cbn. split; [discriminate|]. intros [[] _].
  - cbn [Part000.ordered] in H. destruct H as (Hl & Hr & Fl & Fr).
    rewrite Forall_forall in Fl, Fr.
    rewrite find_node. cbn [Part000.inorder]. rewrite in_app_iff. cbn [In].
    rewrite Z.gtb_ltb.
    destruct (Z.ltb_spec key k0) as [Hlt|Hge];
      [|destruct (Z.ltb_spec k0 key) as [Hgt|Hle]].
    + rewrite (IHl Hl). split; [intros [Hin Hk]; auto|].
      intros [[Hin|[Heq|Hin]] Hk]; [auto|subst p; cbn in Hk; lia|].
      specialize (Fr p Hin). lia.
    + rewrite (IHr Hr). split; [intros [Hin Hk]; auto|].
      intros [[Hin|[Heq|Hin]] Hk]; [|subst p; cbn in Hk; lia|auto].
      specialize (Fl p Hin). lia.
    + assert (key = k0) by lia. subst key. split.
      * intros E. inversion E. auto.
      * intros [[Hin|[Heq|Hin]] Hk]; [|congruence|].
        -- specialize (Fl p Hin). lia.
        -- specialize (Fr p Hin). lia.
Qed.

(** X19. In an ordered tree [find(key)] returns a pair exactly when that
    pair is stored in the tree under [key]; so it returns nothing exactly
    when the key is absent. *)
Theorem find_spec (root : Pair V) (key : Z) (p : Z * V) :
  ordered root ->
  (find root key = Some p <-> In p (inorder root) /\ fst p = key)
  /\ (find root key = None <-> ~ In key (map fst (inorder root))).
Proof.
  intros H. split; [now apply find_In|].
  split.
  - intros E Hin. apply in_map_iff in Hin as (q & Hq & Hin).
    assert (Hs : find root key = Some q) by (apply find_In; auto).
    congruence.
  - intros Hn. destruct (find root key) as [q|] eqn:E; [|reflexivity].
    apply (find_In _ _ _ H) in E as [Hin Hk]. exfalso. apply Hn.
    apply in_map_iff. eauto.
Qed.

Lemma sorted_app (l1 l2 : list (Z * V)) :
  StronglySorted (fun p q => fst p < fst q) l1 ->
  StronglySorted (fun p q => fst p < fst q) l2 ->
  (forall p q, In p l1 -> In q l2 -> fst p < fst q) ->
  StronglySorted (fun p q => fst p < fst q) (l1 ++ l2).
Proof.
  intros H1 H2 H. induction l1 as [|x l1 IH]; [exact H2|].
  inversion H1 as [|? ? S1 F1]; subst. cbn. constructor.
  - apply IH; [exact S1|]. intros p q Hp Hq. apply H; [now right|exact Hq].
  - apply Forall_app. split; [exact F1|].
    apply Forall_forall. intros q Hq. apply H; [now left|exact Hq].
Qed.

(** the pairs of an ordered tree come in strictly increasing key order *)
Lemma ordered_sorted (root : Pair V) :
  ordered root ->
  StronglySorted (fun p q => fst p < fst q) (inorder root).
Proof.
  induction root as [|k0 v0 l IHl r IHr]; intros H; [constructor|].
  cbn [Part000.ordered] in H. destruct H as (Hl & Hr & Fl & Fr).
  rewrite Forall_forall in Fl, Fr.
  cbn [Part000.inorder]. apply sorted_app; [auto| |].
  - constructor; [auto|]. apply Forall_forall. intros q Hq.
    specialize (Fr q Hq). cbn. lia.
  - intros p q Hp [Hq|Hq].
    + subst q. cbn. exact (Fl p Hp).
    + specialize (Fl p Hp). specialize (Fr q Hq). lia.
Qed.

Lemma filter_all (f : Z * V -> bool) (l : list (Z * V)) :
  Forall (fun p => f p = true) l -> filter f l = l.
Proof.
  induction 1 as [|x l Hx Hl IH]; [reflexivity|].
  cbn. now rewrite Hx, IH.
Qed.

Lemma filter_none (f : Z * V -> bool) (l : list (Z * V)) :
  Forall (fun p => f p = false) l -> filter f l = [].
Proof.
  induction 1 as [|x l Hx Hl IH]; [reflexivity|].
  cbn. now rewrite Hx, IH.
Qed.

(** the leftmost pair heads the pairs of a tree, and erasing its key
    removes just it *)
Lemma findMinNode_head (k : Z) (v : V) (l r : Pair V) :
  ordered (node k v l r) ->
  inorder (node k v l r)
  = findMinNode k v l :: inorder (eraseNode (node k v l r) (fst (findMinNode k v l))).
Proof.
  revert k v r. induction l as [|k' v' l' IHl' r' _]; intros k v r H.
  - cbn [Part000.findMinNode fst Part000.eraseNode].
    rewrite Z.ltb_irrefl, Z.gtb_ltb, Z.ltb_irrefl. reflexivity.
  - cbn [Part000.ordered] in H. destruct H as (Hl & Hr & Fl & Fr).
    cbn [Part000.findMinNode].
    pose proof (IHl' k' v' r' Hl) as E.
    assert (Hm : fst (findMinNode k' v' l') < k).
    { rewrite Forall_forall in Fl. apply Fl. rewrite E. now left. }
    cbn [Part000.eraseNode]. apply Z.ltb_lt in Hm. rewrite Hm.
    cbn [Part000.inorder] in *. rewrite E at 1. reflexivity.
Qed.

Lemma erase_filter (root : Pair V) (key : Z) :
  ordered root ->
  inorder (eraseNode root key)
  = filter (fun p => negb (fst p =? key)) (inorder root).
Proof.
  induction root as [|k0 v0 l IHl r IHr]; intros H; [reflexivity|].
  pose proof H as H0.
  cbn [Part000.ordered] in H. destruct H as (Hl & Hr & Fl & Fr).
  assert (Gl : key >= k0 -> filter (fun p : Z * V => negb (fst p =? key)) (inorder l)
                            = inorder l).
  { intros Hk. apply filter_all. eapply Forall_impl; [|exact Fl].
    cbn. intros p Hp. apply negb_true_iff, Z.eqb_neq. lia. }
  assert (Gr : key <= k0 -> filter (fun p : Z * V => negb (fst p =? key)) (inorder r)
                            = inorder r).
  { intros Hk. apply filter_all. eapply Forall_impl; [|exact Fr].
    cbn. intros p Hp. apply negb_true_iff, Z.eqb_neq. lia. }
  cbn [Part000.eraseNode]. rewrite Z.gtb_ltb.
  cbn [Part000.inorder]. rewrite filter_app. cbn [filter fst].
  destruct (Z.ltb_spec key k0) as [Hlt|Hge];
    [|destruct (Z.ltb_spec k0 key) as [Hgt|Hle]].
  - cbn [Part000.inorder]. rewrite (IHl Hl), Gr by lia.
    destruct (Z.eqb_spec k0 key); [lia|reflexivity].
  - cbn [Part000.inorder]. rewrite (IHr Hr), Gl by lia.
    destruct (Z.eqb_spec k0 key); [lia|reflexivity].
  - assert (key = k0) by lia. subst key.
    rewrite Z.eqb_refl. cbn [negb]. rewrite Gl, Gr by lia.
    destruct l as [|lk lv ll lr]; [reflexivity|].
    destruct r as [|rk rv rl rr]; [cbn; now rewrite app_nil_r|].
    pose proof (findMinNode_head rk rv rl rr Hr) as E.
    destruct (findMinNode rk rv rl) as [mk mv] eqn:Em. cbn [fst] in E.
    cbn [Part000.inorder]. cbn [Part000.inorder] in E. rewrite E. reflexivity.
Qed.

Lemma eraseNode_node (k : Z) (v : V) (l r : Pair V) (key : Z) :
  eraseNode (node k v l r) key
  = if key <? k then node k v (eraseNode l key) r
    else if key >? k then node k v l (eraseNode r key)
    else
      match l, r with
      | null, _ => r
      | _, null => l
      | _, node rk rv rl _ =>
          let '(mk, mv) := findMinNode rk rv rl in
          node mk mv l (eraseNode r mk)
      end.
Proof. destruct r; reflexivity. Qed.

Lemma ordered_node (k : Z) (v : V) (l r : Pair V) :
  ordered l -> ordered r ->
  Forall (fun p => fst p < k) (inorder l) ->
  Forall (fun p => k < fst p) (inorder r) ->
  ordered (node k v l r).
Proof. cbn. auto. Qed.

Lemma erase_ordered_aux (root : Pair V) (key : Z) :
  ordered root -> ordered (eraseNode root key).
Proof.
  revert key.
  induction root as [|k0 v0 l IHl r IHr]; intros key H; [exact I|].
  pose proof H as H0.
  cbn [Part000.ordered] in H. destruct H as (Hl & Hr & Fl & Fr).
  assert (Filt : forall (P : Z * V -> Prop) (t : Pair V) (k : Z),
             ordered t -> Forall P (inorder t) -> Forall P (inorder (eraseNode t k))).
  { intros P t k Ht Hf. rewrite (erase_filter t k Ht).
    apply Forall_forall. intros p Hp. apply filter_In in Hp as [Hp _].
    rewrite Forall_forall in Hf. auto. }
  rewrite eraseNode_node, Z.gtb_ltb.
  destruct (Z.ltb_spec key k0) as [Hlt|Hge];
    [|destruct (Z.ltb_spec k0 key) as [Hgt|Hle]].
  - apply ordered_node; auto.
  - apply ordered_node; auto.
  - destruct l as [|lk lv ll lr]; [exact Hr|].
    destruct r as [|rk rv rl rr]; [exact Hl|].
    pose proof (findMinNode_head rk rv rl rr Hr) as E.
    pose proof (ordered_sorted _ Hr) as S.
    destruct (findMinNode rk rv rl) as [mk mv] eqn:Em. cbn [fst] in E.
    rewrite E in S, Fr.
    apply StronglySorted_inv in S as [_ F'].
    apply Forall_inv in Fr as Hmk. cbn [fst] in Hmk, F'.
    apply ordered_node.
    + exact Hl.
    + exact (IHr mk Hr).
    + eapply Forall_impl; [|exact Fl]. cbn beta. intros p Hp. lia.
    + exact F'.
Qed.

(** X20. In an ordered tree [erase(key)] removes exactly the pair stored
    under [key], leaves every other pair in place and in order, and keeps
    the search-tree order; erasing an absent key changes no pair. *)
Theorem erase_spec (root : Pair V) (key : Z) :
  ordered root ->
  ordered (erase root key)
  /\ inorder (erase root key)
     = filter (fun p => negb (fst p =? key)) (inorder root).
Proof.
  intros H. unfold Part000.erase.
  split; [now apply erase_ordered_aux | now apply erase_filter].
Qed.

Lemma option_ext (a b : option (Z * V)) :
  (forall p, a = Some p <-> b = Some p) -> a = b.
Proof.
  intros H. destruct a as [p|].
  - symmetry. now apply H.
  - destruct b as [q|]; [|reflexivity]. now apply H.
Qed.

(** X21. In an ordered tree, after [erase(key)] the key is no longer
    found, and every other key is found as before. *)
Theorem find_erase (root : Pair V) (key : Z) :
  ordered root ->
  find (erase root key) key = None
  /\ forall other : Z, other <> key ->
       find (erase root key) other = find root other.
Proof.
  intros H. unfold Part000.erase.
  pose proof (erase_ordered_aux root key H) as Ho.
  pose proof (erase_filter root key H) as Ei. split.
  - destruct (find (eraseNode root key) key) as [p|] eqn:E; [|reflexivity].
    apply (find_In _ _ _ Ho) in E as [Hin Hk].
    rewrite Ei in Hin. apply filter_In in Hin as [_ Hn].
    apply negb_true_iff, Z.eqb_neq in Hn. contradiction.
  - intros other Hne. apply option_ext. intros p.
    rewrite (find_In _ _ _ Ho), (find_In _ _ _ H), Ei, filter_In.
    split.
    + intros [[Hin _] Hk]. auto.
    + intros [Hin Hk]. repeat split; auto.
      apply negb_true_iff, Z.eqb_neq. lia.
Qed.

Lemma collectInRange_filter (root : Pair V) (a b : Z) :
  ordered root ->
  forall result : list (Z * V),
    collectInRange root a b result
    = result ++ filter (in_range a b) (inorder root).
Proof.
  induction root as [|k v l IHl r IHr]; intros H result.
  - cbn. now rewrite app_nil_r.
  - cbn [Part000.ordered] in H. destruct H as (Hl & Hr & Fl & Fr).
    cbn [Part000.collectInRange Part000.inorder].
    rewrite filter_app. cbn [filter]. unfold in_range at 2. cbn [fst].
    rewrite Z.geb_leb.
    destruct (Z.leb_spec a k) as [Hak|Hak]; cbn [andb].
    + rewrite (IHl Hl).
      destruct (Z.ltb_spec k b) as [Hkb|Hkb].
      * rewrite (IHr Hr). now rewrite <- !app_assoc.
      * rewrite (filter_none (in_range a b) (inorder r)).
        -- now rewrite app_nil_r.
        -- eapply Forall_impl; [|exact Fr]. cbn beta. intros p Hp.
           unfold in_range. apply andb_false_iff. right.
           apply Z.ltb_ge. lia.
    + rewrite (filter_none (in_range a b) (inorder l)).
      * cbn [app].
        destruct (Z.ltb_spec k b) as [Hkb|Hkb].
        -- now rewrite (IHr Hr).
        -- rewrite (filter_none (in_range a b) (inorder r));
             [now rewrite app_nil_r|].
           eapply Forall_impl; [|exact Fr]. cbn beta. intros p Hp.
           unfold in_range. apply andb_false_iff. right.
           apply Z.ltb_ge. lia.
      * eapply Forall_impl; [|exact Fl]. cbn beta. intros p Hp.
        unfold in_range. apply andb_false_iff. left.
        apply Z.leb_gt. lia.
Qed.

(** X22. On an ordered tree [range(a, b)] with [a < b] lists, in increasing
    key order, the pairs whose key lies in [a, b); with [a >= b] it lists
    the pairs whose key lies in [b, a) in decreasing key order (so for
    [a = b] nothing). *)
Theorem range_spec (root : Pair V) (a b : Z) :
  ordered root ->
  (a < b -> range root a b = filter (in_range a b) (inorder root))
  /\ (b <= a -> range root a b = rev (filter (in_range b a) (inorder root))).
Proof.
  intros H. unfold Part000.range. split; intros Hab.
  - apply Z.ltb_lt in Hab. rewrite Hab.
    now rewrite collectInRange_filter.
  - apply Z.ltb_ge in Hab. rewrite Hab.
    now rewrite collectInRange_filter.
Qed.

Lemma pushLeft_pending (n : Pair V) :
  forall stack : Iterator V,
    Forall is_node stack ->
    Forall is_node (pushLeft n stack)
    /\ pending (pushLeft n stack) = inorder n ++ pending stack
    /\ pending_count (pushLeft n stack) = (count n + pending_count stack)%nat.
Proof.
  induction n as [|k v l IHl r _]; intros stack Hs.
  - cbn. auto.
  - cbn [Part000.pushLeft].
    destruct (IHl (node k v l r :: stack)) as (F & P & C).
    { constructor; [exact I|exact Hs]. }
    split; [exact F|]. split.
    + rewrite P. cbn [Part000.inorder]. unfold pending. cbn [flat_map].
      now rewrite <- app_assoc.
    + rewrite C. cbn [pending_count Part000.count]. lia.
Qed.

Lemma incr_pushLeft (k : Z) (v : V) (l r : Pair V) (stack : Iterator V) :
  incr (node k v l r :: stack) = pushLeft r stack.
Proof. destruct r; reflexivity. Qed.

Lemma for_each_pending (fuel : nat) :
  forall it : Iterator V,
    Forall is_node it ->
    (pending_count it <= fuel)%nat ->
    for_each fuel it = Some (pending it).
Proof.
  induction fuel as [|fuel IH]; intros it Hn Hc.
  - destruct it as [|[|k v l r] rest]; [reflexivity| |cbn in Hc; lia].
    inversion Hn as [|? ? F _]. destruct F.
  - destruct it as [|[|k v l r] rest]; [reflexivity| |].
    + inversion Hn as [|? ? F _]. destruct F.
    + inversion Hn as [|? ? _ Hr]; subst.
      destruct (pushLeft_pending r rest Hr) as (F & P & C).
      cbn [Part000.for_each Part000.not_at_end Part000.deref].
      rewrite incr_pushLeft, IH; [|exact F|cbn [pending_count] in Hc; lia].
      rewrite P. reflexivity.
Qed.

(** X23. The range-based [for] over a tree ends after as many steps as the
    tree has nodes and visits its pairs from left to right; on an ordered
    tree that is in strictly increasing key order. *)
Theorem for_each_inorder (root : Pair V) :
  for_each (count root) (begin_ root) = Some (inorder root)
  /\ (ordered root ->
      StronglySorted (fun p q => fst p < fst q) (inorder root)).
Proof.
  split; [|apply ordered_sorted].
  destruct (pushLeft_pending root [] (Forall_nil _)) as (F & P & C).
  unfold Part000.begin_.
  rewrite for_each_pending; [|exact F|cbn [pending_count] in C; lia].
  rewrite P. cbn. now rewrite app_nil_r.
Qed.

End SearchingTree_facts.

(** ** part_000's [main], replayed *)

Lemma main_tree_ordered : Part000.ordered main_tree.
Proof.
  vm_compute. repeat split; repeat constructor.
Qed.

Example main_tree_erase_find :
  Part000.find (Part000.erase main_tree 3) 4 = Some (4, "left-right")
  /\ Part000.for_each 6 (Part000.begin_ (Part000.erase main_tree 3))
     = Some [(2, "left-left"); (4, "left-right"); (5, "root");
             (6, "right-left"); (7, "right"); (8, "right-right")]
  /\ Part000.range (Part000.erase main_tree 3) 3 7
     = [(4, "left-right"); (5, "root"); (6, "right-left")].
Proof. repeat split. Qed.

Lemma insert_ordered_witness :
  Part000.ordered (Part000.insert (@Part000.null string) 5 "root")
  /\ Part000.ordered
       (Part000.insert (Part000.insert (@Part000.null string) 5 "root") 3 "left").
Proof.
  assert (H : Part000.ordered (Part000.insert (@Part000.null string) 5 "root"))
    by (apply insert_ordered; exact I).
  split; [exact H|].
  exact (insert_ordered string _ 3 "left" H).
Defined.

Lemma find_spec_witness :
  Part000.ordered main_tree
  /\ (Part000.find main_tree 4 = Some (4, "left-right")
      <-> In (4, "left-right") (Part000.inorder main_tree)
          /\ fst (4, "left-right") = 4).
Proof.
  split; [exact main_tree_ordered|].
  exact (proj1 (find_spec string main_tree 4 (4, "left-right") main_tree_ordered)).
Defined.

Lemma erase_spec_witness :
  Part000.ordered main_tree
  /\ Part000.inorder (Part000.erase main_tree 3)
     = filter (fun p => negb (fst p =? 3)) (Part000.inorder main_tree).
Proof.
  split; [exact main_tree_ordered|].
  exact (proj2 (erase_spec string main_tree 3 main_tree_ordered)).
Defined.

Lemma find_erase_witness :
  Part000.ordered main_tree
  /\ Part000.find (Part000.erase main_tree 3) 3 = None.
Proof.
  split; [exact main_tree_ordered|].
  exact (proj1 (find_erase string main_tree 3 main_tree_ordered)).
Defined.

Lemma range_spec_witness :
  Part000.ordered main_tree
  /\ 3 < 7
  /\ Part000.range main_tree 3 7
     = filter (in_range 3 7) (Part000.inorder main_tree).
Proof.
  split; [exact main_tree_ordered|]. split; [reflexivity|].
  exact (proj1 (range_spec string main_tree 3 7 main_tree_ordered) eq_refl).
Defined.

Lemma for_each_inorder_witness :
  Part000.ordered main_tree
  /\ StronglySorted (fun p q : Z * string => fst p < fst q)
       (Part000.inorder main_tree).
Proof.
  split; [exact main_tree_ordered|].
  exact (proj2 (for_each_inorder string main_tree) main_tree_ordered).
Defined.

(** * The third program of polka.cpp against part_002 *)

(** X24. The guard added to [BinaryOP::apply] in the third program of
    polka.cpp changes nothing where part_002 is defined: whenever
    part_002's [apply] returns a result or stops on a division without
    value, the guarded [apply] does the same; it differs only where
    part_002 runs off the vector. *)
Theorem Polka3_apply_extends (st : Part002.Statement) :
  forall (s : vector) (cin : istream),
    Part002.apply st s cin <> UB_empty ->
    Polka3.apply st s cin = Part002.apply st s cin.
Proof.
  induction st as [l IHl r IHr| v | f | | | |]; intros s cin H;
    try reflexivity.
  - cbn [Part002.apply Polka3.apply] in *.
    destruct (Part002.apply l s cin) as [[mid c]| |] eqn:El; cbn [bind] in *;
      [|congruence|].
    + rewrite IHl, El by (rewrite El; discriminate). cbn [bind].
      now apply IHr.
    + rewrite IHl, El by (rewrite El; discriminate). reflexivity.
  - cbn [Polka3.apply].
    destruct (size s <? 2) eqn:E; [|reflexivity].
    apply Z.ltb_lt in E. rewrite apply_BinaryOP_short in H by exact E.
    congruence.
Qed.

Lemma Polka3_apply_extends_witness :
  Part002.apply inc [41] [] <> UB_empty
  /\ Polka3.apply inc [41] [] = Ok ([42], []).
Proof.
  assert (H : Part002.apply inc [41] [] <> UB_empty) by discriminate.
  split; [exact H|].
  exact (Polka3_apply_extends inc [41] [] H).
Defined.

(** * part_003 on an unknown token *)

(** X25. Where part_002 skips a token it does not know, part_003 hangs:
    if the first character after the leading spaces starts neither a number
    nor one of the eight operators, the loop of [compile] never ends. *)
Theorem Part003_compile_hangs (str : string) (c : ascii) (rest : string) :
  consume_space str = String c rest ->
  isdigit c = false ->
  Part003.first_prefix (String c rest) Part003.operator_mappings = None ->
  Part003.compile str = None
  /\ forall fuel : nat, Part003.compile_fuel fuel str = None.
Proof.
  intros Hs Hd Hf.
  assert (Hc : c <> "-"%char).
  { intros ->. cbn in Hf. destruct rest; discriminate Hf. }
  assert (Hp : Part003.parse_num (String c rest) = (None, String c rest)).
  { rewrite parse_num_plain.
    - cbn [scan_digits]. now rewrite Hd.
    - intros d r E. inversion E. congruence. }
  assert (Hstuck : forall fuel ret,
             Part003.compile_loop fuel (String c rest) ret = None).
  { apply compile_loop_stuck; auto.
    rewrite <- Hs. apply consume_space_idem. }
  assert (Hall : forall fuel, Part003.compile_fuel fuel str = None).
  { intros fuel. unfold Part003.compile_fuel.
    destruct str as [|c0 s0]; [discriminate Hs|]. cbn [is_empty].
    destruct fuel as [|fuel]; [reflexivity|].
    rewrite compile_loop_S. cbv zeta. cbn [is_empty].
    rewrite Hs. cbn [is_empty]. rewrite Hp, Hf. apply Hstuck. }
  split; [apply Hall|exact Hall].
Qed.

Lemma Part003_compile_hangs_witness :
  consume_space "  foo 1" = String "f" "oo 1"
  /\ isdigit "f" = false
  /\ Part003.first_prefix "foo 1" Part003.operator_mappings = None
  /\ Part003.compile "  foo 1" = None.
Proof.
  split; [reflexivity|]. split; [reflexivity|]. split; [reflexivity|].
  exact (proj1 (Part003_compile_hangs "  foo 1" "f" "oo 1"
                  eq_refl eq_refl eq_refl)).
Defined.

(** * Instances *)

Lemma compile_throw_or_null_witness :
  existsb out_of_range_literal (regex_tokens EmptyString "1 99999999999") = true
  /\ Polka.compile "1 99999999999" = Throw_out_of_range.
Proof.
  split; [reflexivity|].
  exact (proj2 (proj1 (compile_throw_or_null "1 99999999999")) eq_refl).
Defined.

Lemma find_insert_witness :
  4 <> 3
  /\ Part000.find (Part000.insert main_tree 3 "again") 4 = Part000.find main_tree 4.
Proof.
  assert (H : 4 <> 3) by discriminate.
  split; [exact H|].
  exact (proj2 (find_insert string main_tree 3 "again") 4 H).
Defined.

Lemma Part003_compile_decides_witness :
  (S (String.length "1 +") <= 9)%nat
  /\ Part003.compile_fuel 9%nat "1 +"
     = Some (Some (Part003.Combine (Part003.ConstOp 1) (Part003.BinaryOP plus))).
Proof.
  assert (H : (S (String.length "1 +") <= 9)%nat) by (cbn; lia).
  split; [exact H|].
  exact (Part003_compile_decides "1 +" 9%nat H).
Defined.

Lemma Part004_compile_decides_witness :
  (S (String.length "1 +") <= 9)%nat
  /\ Part004.compile_loop 9%nat "1 +" None
     = Some (Some (Part004.Combine (Part004.ConstOp 1) (Part004.BinaryOP plus))).
Proof.
  assert (H : (S (String.length "1 +") <= 9)%nat) by (cbn; lia).
  split; [exact H|].
  exact (Part004_compile_decides "1 +" 9%nat H).
Defined.

(** * Where part_002's optimizer and evaluator are safe *)

(** X26. part_002's [optimize] changes a tree only by folding two literals
    in sequence: a tree that nowhere holds a sequence of two literals is
    returned as it is, so evaluation is untouched. *)
Theorem optimize_without_literal_pair (st : Part002.Statement) :
  has_literal_pair st = false -> Part002.optimize st = st.
Proof.
  induction st as [l IHl r IHr| | | | | |]; intros H; try reflexivity.
  rewrite Part002_optimize_Combine.
  assert (Hl : has_literal_pair l = false /\ has_literal_pair r = false
               /\ (forall a b, l = Part002.ConstOp a -> r = Part002.ConstOp b -> False)).
  { cbn [has_literal_pair] in H.
    destruct l; destruct r; try discriminate H;
      try (apply orb_false_iff in H as [H1 H2]);
      repeat split; auto; intros; discriminate. }
  destruct Hl as (H1 & H2 & H3).
  rewrite (IHl H1), (IHr H2).
  destruct (_ >? _); [reflexivity|].
  destruct l; try reflexivity. destruct r; try reflexivity.
  exfalso. eapply H3; reflexivity.
Qed.

Lemma optimize_without_literal_pair_witness :
  has_literal_pair (Part002.Combine inc inc) = false
  /\ Part002.optimize (Part002.Combine inc inc) = Part002.Combine inc inc.
Proof.
  split; [reflexivity|].
  apply optimize_without_literal_pair. reflexivity.
Defined.

Lemma func_no_division (f : binop) (a b : Z) :
  no_division (Part002.BinaryOP f) = true -> func f a b <> UB_arith.
Proof. destruct f; cbn; intros H; discriminate. Qed.

Lemma apply_no_UB_arith (st : Part002.Statement) :
  no_division st = true ->
  forall (s : vector) (cin : istream), Part002.apply st s cin <> UB_arith.
Proof.
  induction st as [l IHl r IHr| v | f | | | |]; intros Hd s cin;
    try (cbn; discriminate).
  - cbn [no_division] in Hd. apply andb_true_iff in Hd as [Hl Hr].
    cbn [Part002.apply]. pose proof (IHl Hl s cin) as Il.
    destruct (Part002.apply l s cin) as [[mid c]| |]; cbn [bind];
      [|discriminate|congruence].
    apply (IHr Hr).
  - destruct (Z_lt_ge_dec (size s) 2) as [Hlt|Hge].
    + rewrite apply_BinaryOP_short by exact Hlt. discriminate.
    + destruct (vector_size_2 s ltac:(lia)) as (w & a & b & ->).
      rewrite apply_BinaryOP_push.
      pose proof (func_no_division f a b Hd) as Hf.
      destruct (func f a b); cbn [bind]; [discriminate|discriminate|congruence].
  - destruct (vector_cases s) as [-> | (w & b & ->)]; [discriminate|].
    rewrite apply_Abs_push. discriminate.
  - cbn [Part002.apply]. destruct (cin_read cin). discriminate.
  - destruct (vector_cases s) as [-> | (w & b & ->)]; [discriminate|].
    rewrite apply_Dup_push. discriminate.
Qed.

(** X27. A part_002 statement without [/] and [%], applied to a stack of at
    least [get_arguments_count] elements, always returns a result, and that
    result has [get_results_count] elements in place of the arguments. *)
Theorem apply_total (st : Part002.Statement) (s : vector) (cin : istream) :
  node_count st < 2 ^ 29 ->
  no_division st = true ->
  Part002.get_arguments_count st <= size s ->
  exists (s' : vector) (cin' : istream),
    Part002.apply st s cin = Ok (s', cin')
    /\ size s' = size s - Part002.get_arguments_count st
                 + Part002.get_results_count st.
Proof.
  intros Hn Hd Hs.
  destruct (apply_depth st Hn s cin) as [Hge _].
  destruct (Hge Hs) as [He Hlen].
  pose proof (apply_no_UB_arith st Hd s cin) as Ha.
  destruct (Part002.apply st s cin) as [[s' cin']| |]; [|congruence..].
  exists s', cin'. split; [reflexivity|]. exact (Hlen s' cin' eq_refl).
Qed.

Lemma apply_total_witness :
  node_count (long_sequence_test 3) < 2 ^ 29
  /\ no_division (long_sequence_test 3) = true
  /\ Part002.get_arguments_count (long_sequence_test 3) <= size []
  /\ exists (s' : vector) (cin' : istream),
       Part002.apply (long_sequence_test 3) [] [] = Ok (s', cin')
       /\ size s' = size [] - Part002.get_arguments_count (long_sequence_test 3)
                    + Part002.get_results_count (long_sequence_test 3).
Proof.
  split; [reflexivity|]. split; [reflexivity|]. split; [discriminate|].
  apply apply_total; [reflexivity|reflexivity|discriminate].
Defined.
